(** * ACR slice position: wedge localisation and circular-shift matching

    A shallow embedding of [hazenlib/tasks/acr_slice_position.py]
    (class [ACRSlicePosition]: [run], [find_wedges], [get_slice_position]).

    Numbers.  The values of numpy's float64 arrays are modelled by exact
    rationals in canonical form ([Qc]), so that equality of arrays is
    Leibniz equality; the rounding of each operation is left out.  [nan]
    is modelled by [None] in a [list (option Qc)].  One number is computed
    in binary64 as numpy computes it, because its rounding changes the
    shape of an array: the length of [np.arange(1, n + 0.2, 0.2)].

    Exceptions.  Python exceptions are modelled by the error monad
    [result]; an [IndexError] raised by [peaks[0]] on an empty array is
    [Raise IndexError]. *)

From Stdlib Require Import ZArith QArith Qabs Qcanon Qcabs Qround Lia Lqa.
From Stdlib Require Import Floats.
From stdpp Require Import base option numbers list gmap strings.

Local Open Scope Z_scope.

(** ** Python exceptions and the error monad *)

Inductive exn : Type :=
  | IndexError
  | ValueError
  | ZeroDivisionError
  | Exception (text : string).

Inductive result (A : Type) : Type :=
  | Ok (a : A)
  | Raise (e : exn).
Arguments Ok {A} a.
Arguments Raise {A} e.

Global Instance result_ret : MRet result := fun A a => Ok a.
Global Instance result_bind : MBind result := fun A B k m =>
  match m with
  | Ok a => k a
  | Raise e => Raise e
  end.

(** [str(e)]: the text of an exception.  The built-in exceptions carry
    messages of Python and numpy that are not spelled out here; the name of
    their class stands for them. *)
Definition exn_str (e : exn) : string :=
  match e with
  | IndexError => "IndexError"
  | ValueError => "ValueError"
  | ZeroDivisionError => "ZeroDivisionError"
  | Exception text => text
  end.

(** What is written to the standard output. *)
Inductive output : Type :=
  | Print (line : string)
  | PrintExc (e : exn).

(** The dictionary [run] returns: the keys [file], [measurement] (the
    "length difference" of each image description) and, when a report is
    asked for, [report_image]. *)
Record results_t : Type := Results {
  file : list string;
  measurement : gmap string Qc;
  report_image : option (list string)
}.

(** ** Numbers *)

Definition QcZ (z : Z) : Qc := Qc_of_Z z.

Definition Qcltb (x y : Qc) : bool := bool_decide (x < y)%Qc.
Definition Qcleb (x y : Qc) : bool := bool_decide (x ≤ y)%Qc.
Definition Qceqb (x y : Qc) : bool := bool_decide (x = y).

(** [np.floor] and [np.ceil]. *)
Definition Qc_floor (q : Qc) : Z := Qfloor q.
Definition Qc_ceil (q : Qc) : Z := Qceiling q.

Definition half : Qc := Q2Qc (1 # 2).
Definition quarter : Qc := Q2Qc (1 # 4).

(** [np.round] and Python's [round] on a float: to the nearest integer,
    a tie goes to the even neighbour. *)
Definition round_half_even (q : Qc) : Z :=
  let f := Qc_floor q in
  let r := (q - QcZ f)%Qc in
  if Qcltb r half then f
  else if Qcltb half r then f + 1
  else if Z.even f then f else f + 1.

(** Python's [round(x, 2)]. *)
Definition round2 (q : Qc) : Qc :=
  (QcZ (round_half_even (QcZ 100 * q)) / QcZ 100)%Qc.

(** ** numpy arrays as lists *)

(** [a[i]] for a Python integer [i]: a negative index counts from the
    end, an index outside [-n, n) raises [IndexError]. *)
Definition np_index {A} (a : list A) (i : Z) : result A :=
  let n := Z.of_nat (length a) in
  let j := if i <? 0 then i + n else i in
  if (0 <=? j) && (j <? n) then
    match a !! Z.to_nat j with
    | Some x => Ok x
    | None => Raise IndexError
    end
  else Raise IndexError.

(** The bound of a slice [a[i:j]] once clamped to the array, as Python's
    [slice.indices] computes it for a step of 1. *)
Definition slice_bound (n : Z) (i : Z) : Z :=
  if i <? 0 then Z.max 0 (i + n) else Z.min i n.

Definition slice_lo (n : Z) (start : option Z) : nat :=
  Z.to_nat (from_option (slice_bound n) 0 start).
Definition slice_hi (n : Z) (stop : option Z) : nat :=
  Z.to_nat (from_option (slice_bound n) n stop).

(** [a[start:stop]]. *)
Definition py_slice {A} (a : list A) (start stop : option Z) : list A :=
  let n := Z.of_nat (length a) in
  let lo := slice_lo n start in
  let hi := slice_hi n stop in
  take (hi - lo) (drop lo a).

(** [a[start:stop] = np.nan]. *)
Definition set_slice_nan (a : list (option Qc)) (start stop : option Z)
  : list (option Qc) :=
  let n := Z.of_nat (length a) in
  let lo := slice_lo n start in
  let hi := slice_hi n stop in
  imap (fun i x => if bool_decide (lo <= i < hi)%nat then None else x) a.

(** [np.roll(a, k)]: element [i] of the result is [a[(i - k) mod n]]. *)
Definition np_roll {A} (a : list A) (k : Z) : list A :=
  match a with
  | [] => []
  | _ =>
    let n := length a in
    let s := Z.to_nat (k mod Z.of_nat n) in
    drop (n - s) a ++ take (n - s) a
  end.

Definition Qcsum (l : list Qc) : Qc := foldr Qcplus 0%Qc l.

(** [np.diff]. *)
Fixpoint np_diff (a : list Qc) : list Qc :=
  match a with
  | x :: (y :: _) as t => (y - x)%Qc :: np_diff t
  | _ => []
  end.

Fixpoint Z_diff (a : list Z) : list Z :=
  match a with
  | x :: (y :: _) as t => (y - x) :: Z_diff t
  | _ => []
  end.

(** [np.max] and [np.min]: [ValueError] on an empty array. *)
Definition Qcmax (x y : Qc) : Qc := if Qcltb x y then y else x.
Definition Qcmin (x y : Qc) : Qc := if Qcltb y x then y else x.

Definition np_max (a : list Qc) : result Qc :=
  match a with
  | [] => Raise ValueError
  | x :: t => Ok (foldl Qcmax x t)
  end.
Definition np_min (a : list Qc) : result Qc :=
  match a with
  | [] => Raise ValueError
  | x :: t => Ok (foldl Qcmin x t)
  end.

(** [np.mean] of a non-empty array. *)
Definition np_mean (a : list Qc) : Qc :=
  (Qcsum a / QcZ (Z.of_nat (length a)))%Qc.

(** [np.isnan(a).all()]. *)
Definition all_nan (a : list (option Qc)) : bool :=
  forallb (fun x => bool_decide (x = None)) a.

(** [np.nanmean]: the mean of the entries that are not [nan]. *)
Definition nanmean (a : list (option Qc)) : Qc :=
  np_mean (omap id a).

(** ** The circular-shift search of [get_slice_position] *)

(** The filler error of a lag whose residual is all [nan]. *)
Definition sentinel : Qc := QcZ 10000000000.

(** [lag = np.linspace(-50, 50, 101, dtype=int)]. *)
Definition lag : list Z := (fun k => Z.of_nat k - 50) <$> seq 0 101.

(** The body of the loop over [lag]: the value stored in [err[k]]. *)
Definition lag_error (static_line_L static_line_R : list Qc) (lag_val : Z)
  : Qc :=
  let difference :=
    zip_with (fun r l => Some (r - l)%Qc)
      static_line_R (np_roll static_line_L lag_val) in
  let difference :=
    if 0 <? lag_val then set_slice_nan difference None (Some lag_val)
    else set_slice_nan difference (Some lag_val) None in
  if all_nan difference then sentinel else Qcabs (nanmean difference).

Definition lag_errors (static_line_L static_line_R : list Qc) : list Qc :=
  lag_error static_line_L static_line_R <$> lag.

(** [np.argwhere(err == m)]: the indices whose entry equals [m]. *)
Definition argwhere_eq (err : list Qc) (m : Qc) : list Z :=
  omap id (imap (fun i e => if Qceqb e m then Some (Z.of_nat i) else None) err).

(** [temp = np.argwhere(err == np.min(err[err > 0]))[0]], then
    [lag[temp][0]]: the first lag whose error is the least positive one. *)
Definition select_lag (err : list Qc) : result Z :=
  m ← np_min (filter (fun e => (0 < e)%Qc) err);
  temp ← np_index (argwhere_eq err m) 0;
  np_index lag temp.

(** ** Linear interpolation of a line profile *)

Definition interp_factor : Z := 5.

(** [np.arange(1, n + 1)]. *)
Definition arange_x (n : nat) : list Qc :=
  (fun k => QcZ (Z.of_nat k + 1)) <$> seq 0 n.

(** [ceil] of a finite binary64 number, as an integer (0 for the
    infinities and [nan], which [arange_length] never meets). *)
Definition float_ceil (f : float) : Z :=
  match Prim2SF f with
  | S754_finite s m e =>
    let num := if s then Z.neg m else Z.pos m in
    if 0 <=? e then num * 2 ^ e else - ((- num) / 2 ^ (- e))
  | _ => 0
  end.

(** The length numpy gives [np.arange(1, n + 1/interp_factor,
    1/interp_factor)]: [ceil((stop - start) / step)], where the sum, the
    difference and the quotient are each rounded to binary64. *)
Definition arange_length (n : Z) : Z :=
  let step := (1 / 5)%float in
  let stop := (PrimFloat.of_uint63 (Uint63.of_Z n) + step)%float in
  float_ceil ((stop - 1) / step)%float.

(** [np.arange(1, n + 1/interp_factor, 1/interp_factor)]: the values
    [1 + i/5], as many as [arange_length] says. *)
Definition arange_new_x (n : nat) : list Qc :=
  (fun i => 1 + QcZ (Z.of_nat i) * (1 / QcZ interp_factor))%Qc
    <$> seq 0 (Z.to_nat (arange_length (Z.of_nat n))).

(** [np.searchsorted(x, v)] for an increasing [x]: the number of entries
    below [v]. *)
Definition searchsorted (x : list Qc) (v : Qc) : Z :=
  Z.of_nat (length (filter (fun xi => (xi < v)%Qc) x)).

(** [np.clip]. *)
Definition clip (v lo hi : Z) : Z := Z.min (Z.max v lo) hi.

(** One sample of [scipy.interpolate.interp1d(x, y)] (kind linear, bounds
    checked).  A value outside [x[0], x[-1]] raises [ValueError]; a single
    sample is its own interpolant; otherwise the value lies on the chord
    through the two neighbours of [v] in [x]. *)
Definition interp1d_at (x y : list Qc) (v : Qc) : result Qc :=
  x_first ← np_index x 0;
  x_last ← np_index x (-1);
  if Qcltb v x_first || Qcltb x_last v then Raise ValueError else
  if bool_decide (length x = 1%nat) then np_index y 0 else
  let hi := clip (searchsorted x v) 1 (Z.of_nat (length x) - 1) in
  let lo := hi - 1 in
  x_lo ← np_index x lo;
  x_hi ← np_index x hi;
  y_lo ← np_index y lo;
  y_hi ← np_index y hi;
  let slope := ((y_hi - y_lo) / (x_hi - x_lo))%Qc in
  mret (slope * (v - x_lo) + y_lo)%Qc.

(** [scipy.interpolate.interp1d(x, y)(x_new)].  [x] and [y] of different
    lengths, or without any entry, raise [ValueError]. *)
Definition interp1d (x y x_new : list Qc) : result (list Qc) :=
  if bool_decide (length x = length y /\ (1 <= length x)%nat) then
    mapM (interp1d_at x y) x_new
  else Raise ValueError.

(** The upsampled profile: [interp1d(x, line_prof)(new_x)] with
    [x = np.arange(1, len(line_prof_L) + 1)]. *)
Definition interp_line_prof (n : nat) (line_prof : list Qc)
  : result (list Qc) :=
  interp1d (arange_x n) line_prof (arange_new_x n).

(** ** The peak finder *)

(** The type of [ACRObject.find_n_highest_peaks(data, n, height)] as this
    file calls it: the array of peak locations it returns (the heights it
    returns with them are dropped by both callers).  [hazenlib/ACRObject.py]
    is not part of the sources at hand, so the functions below take the
    peak finder as a parameter. *)
Definition peak_finder : Type := list Qc -> nat -> option Qc -> list Z.

(** Modelled from the spec: the peak finder [ACRObject.find_n_highest_peaks],
    whose code is missing.  "given a 1-D signal, a count N, and an optional
    minimum-height threshold, returns up to N indices of prominent local
    maxima, highest first"; "must be local maxima, minimum peak height >= a
    given threshold when specified, peaks must be separated". *)
Definition is_local_max (data : list Qc) (i : nat) : bool :=
  match i with
  | O => false
  | S j =>
    match data !! j, data !! i, data !! S i with
    | Some l, Some c, Some r => Qcltb l c && Qcltb r c
    | _, _, _ => false
    end
  end.

Definition height_ok (data : list Qc) (height : option Qc) (i : nat) : bool :=
  match height, data !! i with
  | Some h, Some c => Qcleb h c
  | None, Some _ => true
  | _, None => false
  end.

(** The first of the highest candidates. *)
Fixpoint highest (data : list Qc) (best : nat) (cands : list nat) : nat :=
  match cands with
  | [] => best
  | i :: t =>
    match data !! best, data !! i with
    | Some b, Some c => highest data (if Qcltb b c then i else best) t
    | _, _ => highest data best t
    end
  end.

Fixpoint n_highest (data : list Qc) (n : nat) (cands : list nat) : list nat :=
  match n, cands with
  | S m, i :: t =>
    let b := highest data i t in
    b :: n_highest data m (filter (fun j => j <> b) cands)
  | _, _ => []
  end.

(** Modelled from the spec: up to [n] local maxima of [data], at least
    [height] high when a height is given, the highest first. *)
Definition spec_find_n_highest_peaks : peak_finder :=
  fun data n height =>
    let cands :=
      filter (fun i => is_local_max data i && height_ok data height i)
        (seq 0 (length data)) in
    Z.of_nat <$> n_highest data n cands.

(** ** Images, masks and line profiles *)

Definition image : Type := list (list Qc).
Definition mask_t : Type := list (list bool).

(** The pixel at integer coordinates, [cval = 0] outside the image
    ([mode="constant"]). *)
Definition pixel (img : image) (r c : Z) : Qc :=
  if (0 <=? r) && (0 <=? c) then
    default 0%Qc (row ← img !! Z.to_nat r; row !! Z.to_nat c)
  else 0%Qc.

(** [skimage.measure.profile_line(img, src, dst, mode="constant").flatten()]
    for the lines this file draws: both ends on integer coordinates and on
    one row or one column.  Such a line has [|d| + 1] samples, one per
    pixel from [src] to [dst], each the pixel itself (linear interpolation
    at integer coordinates). *)
Definition profile_line (img : image) (src dst : Z * Z) : list Qc :=
  let d_row := dst.1 - src.1 in
  let d_col := dst.2 - src.2 in
  let len := Z.to_nat (Z.max (Z.abs d_row) (Z.abs d_col) + 1) in
  (fun i => pixel img (src.1 + Z.of_nat i * Z.sgn d_row)
                      (src.2 + Z.of_nat i * Z.sgn d_col)) <$> seq 0 len.

(** [np.arange(a, b + 1, 1)]. *)
Definition arange_incl (a b : Z) : list Z :=
  (fun i => a + Z.of_nat i) <$> seq 0 (Z.to_nat (b + 1 - a)).

(** [np.sum(mask, 0) > 0] and [np.sum(mask, 1) > 0]. *)
Definition col_any (mask : mask_t) : list bool :=
  (fun j => existsb (fun row => default false (row !! j)) mask)
    <$> seq 0 (length (default [] (head mask))).
Definition row_any (mask : mask_t) : list bool :=
  (fun row => existsb id row) <$> mask.

(** [np.argwhere(b)] of a boolean vector. *)
Definition argwhere (b : list bool) : list Z :=
  omap id (imap (fun i x => if x : bool then Some (Z.of_nat i) else None) b).

(** [mask[y_loc, cols]] and [mask[rows, x_loc]]. *)
Definition mask_row (mask : mask_t) (y_loc : Z) (cols : list Z)
  : result (list bool) :=
  row ← np_index mask y_loc;
  mapM (np_index row) cols.
Definition mask_col (mask : mask_t) (rows : list Z) (x_loc : Z)
  : result (list bool) :=
  mapM (fun r => row ← np_index mask r; np_index row x_loc) rows.

(** [t * line_prof]: arrays of different lengths do not broadcast. *)
Definition mask_mul (t : list bool) (line_prof : list Qc)
  : result (list Qc) :=
  if bool_decide (length t = length line_prof) then
    mret (zip_with (fun b v => if b : bool then v else 0%Qc) t line_prof)
  else Raise ValueError.

(** [np.mean(np.array(invest).T, 1)]: the mean over the profiles, sample
    by sample.  With no profile at all the array has one axis only and
    numpy raises [AxisError], a [ValueError]. *)
Definition mean_profile (invest : list (list Qc)) : result (list Qc) :=
  match invest with
  | [] => Raise ValueError
  | p :: _ =>
    mret ((fun j => np_mean ((fun q => default 0%Qc (q !! j)) <$> invest))
            <$> seq 0 (length p))
  end.

(** [c / res]: Python raises on a zero spacing. *)
Definition div_res (c : Z) (res : Qc) : result Qc :=
  if Qceqb res 0 then Raise ZeroDivisionError else mret (QcZ c / res)%Qc.

(** "we want an odd number". *)
Definition force_odd (n : Z) : Z := if Z.even n then n + 1 else n.

(** What [find_wedges] computes on its way, kept for the statements. *)
Record wedges : Type := Wedges {
  n_point : Z;
  x_locs : Z * Z;
  x_pts : Z * Z;
  end_point : Z;
  y_locs : list Z;
  y : list Z;
  y_pts : list Z
}.

(** A DICOM image as this task reads it. *)
Record dcm_t : Type := Dcm {
  pixel_array : image;
  PixelSpacing : Qc * Qc;
  SeriesDescription : string
}.

(** ** The task: [find_wedges], [get_slice_position], [run] *)

Section ACRSlicePosition.
(** [self.ACR_obj]: its peak finder, its phantom-size flag, its mask. *)
Variable find_n_highest_peaks : peak_finder.
Variable MediumACRPhantom : bool.

(** The X COORDINATES part of [find_wedges]. *)
Definition x_search (img : image) (mask : mask_t) (res_x : Qc)
  : result (Z * Z * Z * (Z * Z)) :=
  q ← div_res 35 res_x;
  let x_investigate_region := force_odd (Qc_ceil q) in
  w_point ← np_index (argwhere (col_any mask)) 0;
  e_point ← np_index (argwhere (col_any mask)) (-1);
  n_point ← np_index (argwhere (row_any mask)) 0;
  invest_x ← mapM (fun k =>
      let y_loc := n_point + Z.of_nat k in
      t ← mask_row mask y_loc (arange_incl w_point e_point);
      let line_prof_x :=
        profile_line img (y_loc, w_point) (y_loc, e_point) in
      mask_mul t line_prof_x)
    (seq 0 (Z.to_nat x_investigate_region));
  mean_x_profile ← mean_profile invest_x;
  let abs_diff_x_profile := Qcabs <$> np_diff mean_x_profile in
  let x_peaks := find_n_highest_peaks abs_diff_x_profile 2%nat None in
  let x_locs := (fun p => w_point + p) <$> x_peaks in
  x_locs0 ← np_index x_locs 0;
  x_locs1 ← np_index x_locs 1;
  mret (w_point, e_point, n_point, (x_locs0, x_locs1)).

(** [x_pts]: the rough midpoints of the wedges. *)
Definition wedge_centres (x_locs : Z * Z) : Z * Z :=
  let lo := Z.min x_locs.1 x_locs.2 in
  let hi := Z.max x_locs.1 x_locs.2 in
  let width := hi - lo in
  (round_half_even (QcZ lo + quarter * QcZ width)%Qc,
   round_half_even (QcZ hi - quarter * QcZ width)%Qc).

(** [end_point]: the supposed row of the end of the wedges. *)
Definition expected_end (n_point : Z) (res_y : Qc) : result Z :=
  q50 ← div_res 50 res_y;
  let end_point := n_point + round_half_even q50 in
  if MediumACRPhantom then
    q35 ← div_res 35 res_y;
    mret (n_point + round_half_even q35)
  else mret end_point.

(** The array [y] chosen from the peaks of the vertical profile: the
    phantom geometry when the second peak is less than 5 mm after the
    first, else a quarter of the way from the lowest peak. *)
Definition y_choice (n_point : Z) (y_locs : list Z) (res_y : Qc)
  : result (list Z) :=
  y_locs1 ← np_index y_locs 1;
  y_locs0 ← np_index y_locs 0;
  q5 ← div_res 5 res_y;
  if Qcltb (QcZ (y_locs1 - y_locs0)) q5 then
    q10 ← div_res 10 res_y;
    mret [n_point + round_half_even q10]
  else
    mret ((fun d => round_half_even
                      (QcZ (foldr Z.min y_locs0 y_locs)
                       + quarter * QcZ (Z.abs d))%Qc)
            <$> Z_diff y_locs).

(** The second y point, 47 mm (35 mm) from the top of the phantom. *)
Definition second_y (n_point : Z) (y : list Z) (res_y : Qc)
  : result Z :=
  y0 ← np_index y 0;
  let dist_to_y := (QcZ (Z.abs (n_point - y0)) * res_y)%Qc in
  q47 ← (if Qceqb res_y 0 then Raise ZeroDivisionError
         else mret ((QcZ 47 - dist_to_y) / res_y)%Qc);
  let y1 := round_half_even (QcZ y0 + q47)%Qc in
  if MediumACRPhantom then
    q35 ← (if Qceqb res_y 0 then Raise ZeroDivisionError
           else mret ((QcZ 35 - dist_to_y) / res_y)%Qc);
    mret (round_half_even (QcZ y0 + q35)%Qc)
  else mret y1.

(** The Y COORDINATES part of [find_wedges], up to the two peaks. *)
Definition y_search (img : image) (mask : mask_t) (res_y : Qc)
    (n_point : Z) (x_pts : Z * Z) : result (Z * list Z) :=
  q ← div_res 20 res_y;
  let y_investigate_region := Qc_ceil q in
  end_point ← expected_end n_point res_y;
  let y_investigate_region := force_odd y_investigate_region in
  invest_y ← mapM (fun m =>
      let x_loc :=
        Z.of_nat m - y_investigate_region / 2 + (x_pts.1 + x_pts.2) / 2 in
      c ← mask_col mask (arange_incl n_point end_point) x_loc;
      let line_prof_y :=
        profile_line img (n_point, x_loc) (end_point, x_loc) in
      mask_mul c line_prof_y)
    (seq 0 (Z.to_nat y_investigate_region));
  mean_y_profile ← mean_profile invest_y;
  let abs_diff_y_profile := Qcabs <$> np_diff mean_y_profile in
  let y_peaks := find_n_highest_peaks abs_diff_y_profile 2%nat None in
  let y_locs := (fun p => n_point + p - 1) <$> y_peaks in
  mret (end_point, y_locs).

Definition find_wedges_full (img : image) (mask : mask_t) (res : Qc * Qc)
  : result wedges :=
  '(w_point, e_point, n_point, x_locs) ← x_search img mask res.1;
  let x_pts := wedge_centres x_locs in
  '(end_point, y_locs) ← y_search img mask res.2 n_point x_pts;
  y ← y_choice n_point y_locs res.2;
  y1 ← second_y n_point y res.2;
  mret (Wedges n_point x_locs x_pts end_point y_locs y (y ++ [y1])).

(** [find_wedges]: returns [x_pts, y_pts]. *)
Definition find_wedges (img : image) (mask : mask_t) (res : Qc * Qc)
  : result ((Z * Z) * list Z) :=
  w ← find_wedges_full img mask res;
  mret (x_pts w, y_pts w).

(** *** The shift matcher: lines 236 to 308 of [get_slice_position] *)

(** [peaks = [peaks[0] - 10, peaks[0] + 10]] around the highest peak of
    [abs(delta)]; [peaks[0]] of an empty array raises [IndexError]. *)
Definition roi (delta : list Qc) : result (Z * Z) :=
  let abs_delta := Qcabs <$> delta in
  m ← np_max abs_delta;
  let peaks := find_n_highest_peaks abs_delta 1%nat (Some (half * m)%Qc) in
  p ← np_index peaks 0;
  mret (p - 10, p + 10).

(** [pos]: 1 when [max(-delta[roi]) < max(delta[roi])], else -1. *)
Definition direction (delta : list Qc) (peaks : Z * Z) : result Z :=
  let d := py_slice delta (Some peaks.1) (Some peaks.2) in
  a ← np_max (Qcopp <$> d);
  b ← np_max d;
  mret (if Qcltb a b then 1 else -1).

(** What the search leaves behind: the sign, the two static segments,
    the error of every lag and the lag selected. *)
Record search : Type := Search {
  pos : Z;
  static_line_L : list Qc;
  static_line_R : list Qc;
  err : list Qc;
  lag_temp : Z
}.

Definition shift_search (interp_line_prof_L interp_line_prof_R : list Qc)
  : result search :=
  let delta :=
    zip_with Qcminus interp_line_prof_L interp_line_prof_R in
  peaks ← roi delta;
  pos ← direction delta peaks;
  let static_line_L :=
    py_slice interp_line_prof_L (Some peaks.1) (Some peaks.2) in
  let static_line_R :=
    py_slice interp_line_prof_R (Some peaks.1) (Some peaks.2) in
  let err := lag_errors static_line_L static_line_R in
  lag_temp ← select_lag err;
  mret (Search pos static_line_L static_line_R err lag_temp).

(** [shift = -lag[temp][0] if pos == 1 else lag[temp][0]]. *)
Definition shift (s : search) : Z :=
  if pos s =? 1 then - lag_temp s else lag_temp s.

(** [dL = pos * np.abs(shift) * (1 / interp_factor) * res[1]]. *)
Definition dL (s : search) (res_y : Qc) : Qc :=
  (QcZ (pos s) * QcZ (Z.abs (shift s)) * (1 / QcZ interp_factor) * res_y)%Qc.

Definition upsample (line_prof_L line_prof_R : list Qc)
  : result (list Qc * list Qc) :=
  let n := length line_prof_L in
  interp_line_prof_L ← interp_line_prof n line_prof_L;
  interp_line_prof_R ← interp_line_prof n line_prof_R;
  mret (interp_line_prof_L, interp_line_prof_R).

Definition shift_match (line_prof_L line_prof_R : list Qc) (res_y : Qc)
  : result Qc :=
  '(interp_line_prof_L, interp_line_prof_R) ←
    upsample line_prof_L line_prof_R;
  s ← shift_search interp_line_prof_L interp_line_prof_R;
  mret (dL s res_y).

(** *** [get_slice_position] *)

Variable mask_image : mask_t.

Definition get_slice_position (dcm : dcm_t) : result Qc :=
  let img := pixel_array dcm in
  let res := PixelSpacing dcm in
  let mask := mask_image in
  '(x_pts, y_pts) ← find_wedges img mask res;
  y_pts0 ← np_index y_pts 0;
  y_pts1 ← np_index y_pts 1;
  let line_prof_L :=
    profile_line img (y_pts0, x_pts.1) (y_pts1, x_pts.1) in
  let line_prof_R :=
    profile_line img (y_pts0, x_pts.2) (y_pts1, x_pts.2) in
  shift_match line_prof_L line_prof_R res.2.

(** *** [run] *)

(** [self.ACR_obj.dcms], [self.img_desc] (of [HazenTask], whose code is
    missing: any function from images to descriptions), [self.report],
    and the path [get_slice_position] saves a figure under when a report
    is asked for. *)
Variable dcms : list dcm_t.
Variable img_desc : dcm_t -> string.
Variable report : bool.
Variable img_path : string -> string.

(** [print(...)] then [traceback.print_exc(file=sys.stdout)]. *)
Definition failure_message (dcm : dcm_t) (e : exn) : string :=
  "Could not calculate the bar length difference for " +:+ img_desc dcm
    +:+ " because of : " +:+ exn_str e.

(** The [for dcm in dcms] loop with its [try]/[except]: [measurement] is
    [results["measurement"]], [report_files] is [self.report_files],
    [out] is what has been written to the standard output. *)
Fixpoint run_loop (todo : list dcm_t) (measurement : gmap string Qc)
    (report_files : list string) (out : list output)
  : list output * result (gmap string Qc * list string) :=
  match todo with
  | [] => (out, Ok (measurement, report_files))
  | dcm :: todo =>
    match get_slice_position dcm with
    | Ok result =>
      run_loop todo
        (<[img_desc dcm := round2 result]> measurement)
        (if report then report_files ++ [img_path (img_desc dcm)]
         else report_files)
        out
    | Raise e =>
      (out ++ [Print (failure_message dcm e); PrintExc e],
       Raise (Exception (exn_str e)))
    end
  end.

Definition run : list output * result results_t :=
  match np_index dcms 0, np_index dcms (-1) with
  | Ok first, Ok last =>
    let dcms := [first; last] in
    let file := img_desc <$> dcms in
    match run_loop dcms ∅ [] [] with
    | (out, Ok (measurement, report_files)) =>
      (out, Ok (Results file measurement
                  (if report then Some report_files else None)))
    | (out, Raise e) => (out, Raise e)
    end
  | Raise e, _ | _, Raise e => ([], Raise e)
  end.
End ACRSlicePosition.

(** ** The report of [get_slice_position] *)

(** The line drawn in the last panel of the report (lines 366 to 374):
    [shift_line = np.roll(interp_line_prof_R, pos * shift)], whose wrapped
    samples are then set to [nan], by one of four slices chosen on the
    signs of [shift] and [pos]. *)
Definition shift_line (interp_line_prof_R : list Qc) (pos shift : Z)
  : list (option Qc) :=
  let shift_line := Some <$> np_roll interp_line_prof_R (pos * shift) in
  if (shift <? 0) && (pos =? -1) then
    set_slice_nan shift_line (Some 0) (Some (Z.abs shift))
  else if (shift <? 0) && (pos =? 1) then
    set_slice_nan shift_line (Some (pos * shift)) None
  else if (0 <? shift) && (pos =? -1) then
    set_slice_nan shift_line (Some (pos * shift)) None
  else
    set_slice_nan shift_line (Some 0) (Some (Z.abs pos * shift)).

(** ** What the statements compare the code with *)

(** The samples of a residual of [n] entries that the masking at
    [lag_val] leaves valid: past the first [lag_val] for a positive lag,
    before the last [|lag_val|] for a negative one, none at lag 0. *)
Definition valid_at (n : nat) (lag_val : Z) (i : nat) : Prop :=
  (0 < lag_val /\ lag_val <= Z.of_nat i)
  \/ (lag_val < 0 /\ Z.of_nat i < Z.of_nat n + lag_val).

Global Instance valid_at_dec n lag_val i : Decision (valid_at n lag_val i).
Proof. unfold valid_at. apply _. Defined.

Definition valid_samples (n : nat) (lag_val : Z) : list nat :=
  filter (valid_at n lag_val) (seq 0 n).

(** Sample [i] of static-right minus the circularly shifted static-left. *)
Definition residual (static_L static_R : list Qc) (lag_val : Z) (i : nat)
  : Qc :=
  let n := Z.of_nat (length static_L) in
  (default 0 (static_R !! i)
   - default 0 (static_L !! Z.to_nat ((Z.of_nat i - lag_val) mod n)))%Qc.

(** The absolute value of the mean residual over the valid samples. *)
Definition abs_mean_residual (static_L static_R : list Qc) (lag_val : Z)
  : Qc :=
  let v := valid_samples (length static_R) lag_val in
  if bool_decide (v = []) then sentinel
  else Qcabs (np_mean (residual static_L static_R lag_val <$> v)).

(** The spec's wording of the same error: "mask out the wrapped-around
    portion (the first [lag] or last [|lag|] samples, depending on sign of
    lag) as invalid; compute the mean absolute residual over valid samples
    only.  If all samples are invalid, assign a large sentinel error". *)
Definition spec_valid_at (n : nat) (lag_val : Z) (i : nat) : Prop :=
  (0 < lag_val /\ lag_val <= Z.of_nat i)
  \/ (lag_val <= 0 /\ Z.of_nat i < Z.of_nat n + lag_val).

Global Instance spec_valid_at_dec n lag_val i :
  Decision (spec_valid_at n lag_val i).
Proof. unfold spec_valid_at. apply _. Defined.

Definition mean_abs_residual (static_L static_R : list Qc) (lag_val : Z)
  : Qc :=
  let v := filter (spec_valid_at (length static_R) lag_val)
             (seq 0 (length static_R)) in
  if bool_decide (v = []) then sentinel
  else np_mean (Qcabs ∘ residual static_L static_R lag_val <$> v).


(** The fraction a successful result holds. *)
Definition result_this (r : result Qc) : option Q :=
  match r with
  | Ok a => Some (this a)
  | Raise _ => None
  end.

Global Instance result_fmap : FMap result := fun A B f m =>
  match m with
  | Ok a => Ok (f a)
  | Raise e => Raise e
  end.




(** The spec's wording of the upsampling: "Upsample both profiles by a
    fixed interpolation factor (5x) using linear interpolation over the
    index axis".  A profile of [n] samples becomes one of [5 (n - 1) + 1]
    samples; sample [5 q + r] of it, [r] from 0 to 4, lies [r / 5] of the
    way from sample [q] to sample [q + 1] of the profile. *)
Definition linear_upsample (profile : list Qc) : list Qc :=
  (fun i : nat =>
     let q := (i / 5)%nat in
     let r := (i mod 5)%nat in
     let a := default 0%Qc (profile !! q) in
     let b := default a (profile !! S q) in
     (a + QcZ (Z.of_nat r) / QcZ 5 * (b - a))%Qc)
    <$> seq 0 (5 * (length profile - 1) + 1).

(** [P] holds of the [k] integers from [n] on. *)
Fixpoint all_between (k : nat) (n : Z) (P : Z -> bool) : bool :=
  match k with
  | O => true
  | S k => P n && all_between k (n + 1) P
  end.

(** The largest profile the statements on upsampling cover: no DICOM
    image has more rows. *)
Definition max_rows : Z := 65536.

(** A profile displaced by [k] samples without wrap-around: sample [i]
    holds sample [i + k] of the profile, and [nan] where the profile has
    no such sample. *)
Definition displaced (profile : list Qc) (k : Z) : list (option Qc) :=
  (fun i : nat =>
     if bool_decide (0 <= Z.of_nat i + k < Z.of_nat (length profile))
     then profile !! Z.to_nat (Z.of_nat i + k) else None)
    <$> seq 0 (length profile).

(** Two images hold the same value at every pixel of the foreground of
    the mask. *)
Definition agree_on (mask : mask_t) (img img' : image) : bool :=
  forallb id
    (imap (fun r row =>
       forallb id
         (imap (fun c (b : bool) =>
            if b then Qceqb (pixel img (Z.of_nat r) (Z.of_nat c))
                            (pixel img' (Z.of_nat r) (Z.of_nat c))
            else true) row)) mask).

(** A mask without any foreground pixel. *)
Definition no_foreground (mask : mask_t) : bool :=
  forallb (forallb negb) mask.

(** ** Sample inputs *)

(** An array of integer-valued samples. *)
Definition np_array (l : list Z) : list Qc := QcZ <$> l.

(** A 12 x 12 image of two vertical bars on a dark background: the
    columns [a1..a2] all hold the samples [colA] from the top row down,
    the columns [b1..b2] all hold [colB]. *)
Definition two_bars (colA colB : list Z) (a1 a2 b1 b2 : nat) : image :=
  (fun r =>
     (fun c =>
        if bool_decide (a1 <= c <= a2)%nat then QcZ (default 0 (colA !! r))
        else if bool_decide (b1 <= c <= b2)%nat
             then QcZ (default 0 (colB !! r))
             else 0%Qc) <$> seq 0 12) <$> seq 0 12.

(** A mask that is foreground everywhere. *)
Definition full_mask : mask_t := replicate 12 (replicate 12 true).

Definition long_bar : list Z := [0; 1; 10; 10; 10; 10; 10; 0; 0; 0; 0; 0].
Definition short_bar : list Z := [0; 1; 10; 10; 10; 10; 0; 0; 0; 0; 0; 0].

(** Two wedges, the left one a row longer than the right one, and the
    same with the wedges swapped; a single bar two columns wide. *)
Definition wedge_img : image := two_bars long_bar short_bar 2 4 5 8.
Definition wedge_img_swapped : image := two_bars short_bar long_bar 2 4 5 8.
Definition thin_img : image := two_bars long_bar long_bar 2 3 2 3.

Definition wedge_res : Qc * Qc := (QcZ 12, QcZ 5).

(** The shorter wedges of the compact phantom. *)
Definition wedge_img_compact : image :=
  two_bars [0; 1; 10; 10; 10; 0; 0; 0; 0; 0; 0; 0]
           [0; 1; 10; 10; 0; 0; 0; 0; 0; 0; 0; 0] 2 4 5 8.

(** What [find_wedges] finds in these images. *)
Definition wedge_found : wedges :=
  Wedges 0 (1, 8) (3, 6) 10 [0; 5] [1] [1; 9].
Definition compact_found : wedges :=
  Wedges 0 (1, 8) (3, 6) 7 [0; 3] [1] [1; 7].
Definition thin_found : wedges :=
  Wedges 0 (1, 3) (2, 2) 10 [5; 0] [2] [2; 9].

(** The two profiles drawn through the wedges of [wedge_img]. *)
Definition left_profile : list Qc := np_array [1; 10; 10; 10; 10; 10; 0; 0; 0].
Definition right_profile : list Qc := np_array [1; 10; 10; 10; 10; 0; 0; 0; 0].

(** A series whose first and last images are [wedge_img] and the same
    with the wedges swapped; another that ends on [thin_img]. *)
Definition slice_1 : dcm_t := Dcm wedge_img wedge_res "slice 1".
Definition slice_11 : dcm_t := Dcm wedge_img_swapped wedge_res "slice 11".
Definition slice_thin : dcm_t := Dcm thin_img wedge_res "thin".

(** Two upsampled profiles of 21 samples that differ in one sample, the
    fourth or the thirteenth. *)
Definition flat_21 : list Qc := np_array (replicate 21 0).
Definition spike_at_3 : list Qc :=
  np_array (replicate 3 0 ++ [7] ++ replicate 17 0).
Definition spike_at_12 : list Qc :=
  np_array (replicate 12 0 ++ [7] ++ replicate 8 0).

(** A mask without the last column, and [wedge_img] with another value
    in this column. *)
Definition left_mask : mask_t :=
  replicate 12 (replicate 11 true ++ [false]).
Definition wedge_img_noisy : image :=
  (fun row => take 11 row ++ [QcZ 9]) <$> wedge_img.

(** * Properties *)

(** ** Lists *)

Lemma np_roll_lookup {A} (a : list A) (k : Z) (i : nat) :
  (i < length a)%nat ->
  np_roll a k !! i
  = a !! Z.to_nat ((Z.of_nat i - k) mod Z.of_nat (length a)).
Proof.
  intros Hi. unfold np_roll.
  destruct a as [|x a]; [simpl in Hi; lia|].
  set (l := x :: a) in *. set (n := length l) in *.
  assert (Hn : 0 < Z.of_nat n) by lia.
  pose proof (Z.mod_pos_bound k (Z.of_nat n) Hn) as Hs.
  set (s := k mod Z.of_nat n) in *.
  assert (Hmod : (Z.of_nat i - k) mod Z.of_nat n
                 = (Z.of_nat i - s) mod Z.of_nat n).
  { unfold s. by rewrite Zminus_mod_idemp_r. }
  rewrite Hmod.
  destruct (decide (Z.of_nat i < s)) as [Hlt|Hge].
  - rewrite lookup_app_l by (rewrite length_drop; lia).
    rewrite lookup_drop. f_equal.
    assert ((Z.of_nat i - s) mod Z.of_nat n = Z.of_nat i - s + Z.of_nat n)
      as ->; [|lia].
    symmetry. apply (Z.mod_unique _ _ (-1)); lia.
  - rewrite lookup_app_r by (rewrite length_drop; lia).
    rewrite length_drop, lookup_take_lt by lia. f_equal.
    rewrite Z.mod_small by lia. lia.
Qed.


Lemma omap_fmap_seq (b : nat -> bool) (f : nat -> Qc) (l : list nat) :
  omap id ((fun i => if b i then None else Some (f i)) <$> l)
  = f <$> filter (fun i => b i = false) l.
Proof.
  induction l as [|i l IH]; [done|].
  rewrite filter_cons. csimpl. rewrite IH.
  destruct (b i); done.
Qed.

Lemma all_nan_fmap_seq (b : nat -> bool) (f : nat -> Qc) (l : list nat) :
  all_nan ((fun i => if b i then None else Some (f i)) <$> l)
  = bool_decide (filter (fun i => b i = false) l = []).
Proof.
  induction l as [|i l IH]; [done|].
  rewrite fmap_cons, filter_cons. unfold all_nan in *. cbn [forallb].
  rewrite IH. by destruct (b i).
Qed.

Lemma filter_ext_in {A} (P Q : A -> Prop) `{!forall x, Decision (P x)}
    `{!forall x, Decision (Q x)} (l : list A) :
  (forall x, x ∈ l -> P x <-> Q x) -> filter P l = filter Q l.
Proof.
  induction l as [|x l IH]; intros Hext; [done|].
  rewrite !filter_cons.
  assert (HPQ : P x <-> Q x) by (apply Hext; left).
  rewrite IH by (intros y Hy; apply Hext; by right).
  destruct (decide (P x)), (decide (Q x)); tauto.
Qed.

Lemma difference_seq (static_L static_R : list Qc) (k : Z) :
  length static_L = length static_R ->
  zip_with (fun r l => Some (r - l)%Qc) static_R (np_roll static_L k)
  = (fun i => Some (residual static_L static_R k i))
      <$> seq 0 (length static_R).
Proof.
  intros Hlen. apply list_eq. intros i.
  rewrite lookup_zip_with, list_lookup_fmap.
  destruct (decide (i < length static_R)%nat) as [Hi|Hi].
  - rewrite lookup_seq_lt by done. simpl.
    rewrite np_roll_lookup by lia. unfold residual.
    destruct (lookup_lt_is_Some_2 static_R i Hi) as [r ->].
    assert (Hj : (Z.to_nat ((Z.of_nat i - k) mod Z.of_nat (length static_L))
                  < length static_L)%nat).
    { pose proof (Z.mod_pos_bound (Z.of_nat i - k)
                    (Z.of_nat (length static_L))). lia. }
    destruct (lookup_lt_is_Some_2 static_L _ Hj) as [l ->]. done.
  - rewrite lookup_seq_ge by lia.
    rewrite (lookup_ge_None_2 static_R) by lia. done.
Qed.

Lemma set_slice_nan_seq (g : nat -> Qc) (n : nat) start stop :
  set_slice_nan ((fun i => Some (g i)) <$> seq 0 n) start stop
  = (fun i => if bool_decide (slice_lo (Z.of_nat n) start <= i
                              < slice_hi (Z.of_nat n) stop)%nat
              then None else Some (g i)) <$> seq 0 n.
Proof.
  unfold set_slice_nan. rewrite length_fmap, length_seq.
  apply list_eq. intros i. rewrite list_lookup_imap, !list_lookup_fmap.
  destruct (seq 0 n !! i) as [j|] eqn:E; [|done].
  apply lookup_seq in E as [-> _]. done.
Qed.

Lemma lag_error_abs_mean (static_L static_R : list Qc) (lag_val : Z) :
  length static_L = length static_R ->
  lag_error static_L static_R lag_val
  = abs_mean_residual static_L static_R lag_val.
Proof.
  intros Hlen. unfold lag_error, abs_mean_residual, valid_samples, nanmean.
  rewrite difference_seq by done.
  set (n := length static_R).
  assert (Hfilter : forall start stop,
    (forall i, (i < n)%nat ->
       (slice_lo (Z.of_nat n) start <= i < slice_hi (Z.of_nat n) stop)%nat
       <-> ~ valid_at n lag_val i) ->
    filter (fun i => bool_decide (slice_lo (Z.of_nat n) start <= i
                                  < slice_hi (Z.of_nat n) stop)%nat = false)
      (seq 0 n)
    = filter (valid_at n lag_val) (seq 0 n)).
  { intros start stop H. apply filter_ext_in. intros i Hi.
    apply elem_of_seq in Hi. rewrite bool_decide_eq_false, H by lia.
    destruct (decide (valid_at n lag_val i)); tauto. }
  destruct (0 <? lag_val) eqn:Hpos.
  - apply Z.ltb_lt in Hpos.
    rewrite set_slice_nan_seq, all_nan_fmap_seq, omap_fmap_seq.
    rewrite Hfilter; [done|]. intros i Hi.
    unfold slice_lo, slice_hi, slice_bound, valid_at; simpl.
    destruct (lag_val <? 0) eqn:E; [apply Z.ltb_lt in E; lia|]. lia.
  - apply Z.ltb_ge in Hpos.
    rewrite set_slice_nan_seq, all_nan_fmap_seq, omap_fmap_seq.
    rewrite Hfilter; [done|]. intros i Hi.
    unfold slice_lo, slice_hi, slice_bound, valid_at; simpl.
    destruct (lag_val <? 0) eqn:E;
      [apply Z.ltb_lt in E|apply Z.ltb_ge in E]; lia.
Qed.

Lemma all_nan_imap_None (f : nat -> option Qc -> option Qc)
    (d : list (option Qc)) :
  (forall i x, d !! i = Some x -> f i x = None) ->
  all_nan (imap f d) = true.
Proof.
  intros Hf.
  rewrite (imap_ext f (const (fun _ => None)) d) by (intros; by apply Hf).
  rewrite imap_const. unfold all_nan. clear Hf.
  induction d as [|x d IH]; [done|]. simpl. apply IH.
Qed.

Lemma elem_of_lag (k : Z) : k ∈ lag <-> -50 <= k <= 50.
Proof.
  unfold lag. rewrite list_elem_of_fmap. split.
  - intros (i & -> & Hi). apply elem_of_seq in Hi. lia.
  - intros Hk. exists (Z.to_nat (k + 50)). split; [lia|].
    apply elem_of_seq. lia.
Qed.

Lemma lag_lookup (k : nat) :
  (k < 101)%nat -> lag !! k = Some (Z.of_nat k - 50).
Proof.
  intros Hk. unfold lag. rewrite list_lookup_fmap, lookup_seq_lt by done.
  done.
Qed.

(** ** The error of one lag (C1, C9) *)

Lemma lag_error_at_zero (static_L static_R : list Qc) :
  lag_error static_L static_R 0 = sentinel.
Proof.
  unfold lag_error. change (0 <? 0) with false. cbv iota.
  unfold set_slice_nan. rewrite all_nan_imap_None; [done|].
  intros i x Hx. apply lookup_lt_Some in Hx.
  rewrite bool_decide_eq_true_2; [done|].
  unfold slice_lo, slice_hi, slice_bound. simpl. lia.
Qed.

Lemma lag_errors_at_zero (static_L static_R : list Qc) :
  lag_errors static_L static_R !! 50%nat = Some sentinel.
Proof.
  unfold lag_errors. rewrite list_lookup_fmap, lag_lookup by lia.
  change (Z.of_nat 50 - 50) with 0.
  by rewrite <- (lag_error_at_zero static_L static_R).
Qed.

(** C9.  Whatever the two static segments hold, the error of lag 0 is the
    filler value 1e10: at lag 0 the [else] branch sets
    [difference[0:]], that is every sample, to [nan].  Lag 0 is entry 50
    of the array of errors. *)
Theorem lag_zero_error_is_sentinel (static_L static_R : list Qc) :
  lag_error static_L static_R 0 = sentinel
  /\ lag !! 50%nat = Some 0
  /\ lag_errors static_L static_R !! 50%nat = Some sentinel.
Proof.
  split; [apply lag_error_at_zero|].
  split; [done|apply lag_errors_at_zero].
Qed.

(** C1, as the code has it.  For two static segments of one length and
    every lag (so every lag of [-50, 50], which is what [lag] holds), the
    error of the lag is the absolute value of the mean of the residuals
    (static-right minus the rolled static-left) over the valid samples:
    those past the first [lag] for a positive lag, those before the last
    [|lag|] for a negative lag, none at lag 0; with no valid sample the
    error is the filler value. *)
Theorem lag_error_is_abs_of_mean_over_valid (static_L static_R : list Qc) :
  length static_L = length static_R ->
  (forall lag_val : Z,
     lag_error static_L static_R lag_val
     = abs_mean_residual static_L static_R lag_val)
  /\ lag_errors static_L static_R
     = abs_mean_residual static_L static_R <$> lag.
Proof.
  intros Hlen. split.
  - intros lag_val. by apply lag_error_abs_mean.
  - unfold lag_errors. apply list_fmap_ext. intros i k _.
    by apply lag_error_abs_mean.
Qed.

Lemma lag_error_is_abs_of_mean_over_valid_witness :
  length (np_array [0; 0; 0]) = length (np_array [5; 1; -1])
  /\ ((forall lag_val : Z,
         lag_error (np_array [0; 0; 0]) (np_array [5; 1; -1]) lag_val
         = abs_mean_residual (np_array [0; 0; 0]) (np_array [5; 1; -1])
             lag_val)
      /\ lag_errors (np_array [0; 0; 0]) (np_array [5; 1; -1])
         = abs_mean_residual (np_array [0; 0; 0]) (np_array [5; 1; -1])
             <$> lag).
Proof.
  split; [reflexivity|].
  apply (lag_error_is_abs_of_mean_over_valid
           (np_array [0; 0; 0]) (np_array [5; 1; -1])).
  reflexivity.
Defined.

(** C1, as the claim words it, fails: with static-left [0, 0, 0],
    static-right [5, 1, -1] and lag 1 the valid residuals are 1 and -1;
    their mean is 0 and so is the error the code stores, while the mean
    of their absolute values is 1. *)
Lemma lag_error_is_not_mean_of_abs :
  lag_error (np_array [0; 0; 0]) (np_array [5; 1; -1]) 1 = 0%Qc
  /\ mean_abs_residual (np_array [0; 0; 0]) (np_array [5; 1; -1]) 1 = 1%Qc
  /\ lag_error (np_array [0; 0; 0]) (np_array [5; 1; -1]) 1
     <> mean_abs_residual (np_array [0; 0; 0]) (np_array [5; 1; -1]) 1.
Proof.
  assert (H1 : lag_error (np_array [0; 0; 0]) (np_array [5; 1; -1]) 1
               = 0%Qc) by (apply Qc_is_canon; vm_compute; reflexivity).
  assert (H2 : mean_abs_residual (np_array [0; 0; 0])
                 (np_array [5; 1; -1]) 1 = 1%Qc)
    by (apply Qc_is_canon; vm_compute; reflexivity).
  split; [done|]. split; [done|]. rewrite H1, H2. done.
Qed.

(** ** The error monad *)

Lemma bind_Ok {A B} (m : result A) (k : A -> result B) (b : B) :
  m ≫= k = Ok b -> exists a, m = Ok a /\ k a = Ok b.
Proof. destruct m as [a|e]; [by exists a|discriminate]. Qed.

Lemma div_res_Ok (c : Z) (res q : Qc) :
  div_res c res = Ok q -> res <> 0%Qc /\ q = (QcZ c / res)%Qc.
Proof.
  unfold div_res, Qceqb. case_bool_decide; [discriminate|].
  intros [= <-]. done.
Qed.

Lemma div_res_nonzero (c : Z) (res : Qc) :
  res <> 0%Qc -> div_res c res = Ok (QcZ c / res)%Qc.
Proof.
  intros Hres. unfold div_res, Qceqb. by rewrite bool_decide_eq_false_2.
Qed.

Lemma expected_end_Ok (Medium : bool) (n_point : Z) (res_y : Qc) (e : Z) :
  expected_end Medium n_point res_y = Ok e ->
  res_y <> 0%Qc
  /\ e = n_point
         + round_half_even (QcZ (if Medium then 35 else 50) / res_y)%Qc.
Proof.
  unfold expected_end. intros H.
  apply bind_Ok in H as (q50 & Hq & H). apply div_res_Ok in Hq as [Hres ->].
  split; [done|]. destruct Medium.
  - rewrite div_res_nonzero in H by done. by injection H as <-.
  - by injection H as <-.
Qed.

Lemma find_wedges_full_Ok fp Medium img mask res w :
  find_wedges_full fp Medium img mask res = Ok w ->
  exists w_point e_point,
    x_search fp img mask res.1
    = Ok (w_point, e_point, n_point w, x_locs w)
    /\ x_pts w = wedge_centres (x_locs w)
    /\ y_search fp Medium img mask res.2 (n_point w) (x_pts w)
       = Ok (end_point w, y_locs w)
    /\ y_choice (n_point w) (y_locs w) res.2 = Ok (y w)
    /\ exists y1, second_y Medium (n_point w) (y w) res.2 = Ok y1
                  /\ y_pts w = y w ++ [y1].
Proof.
  unfold find_wedges_full. intros H.
  apply bind_Ok in H as ([[[w_point e_point] n] xl] & Hx & H).
  apply bind_Ok in H as ([e yl] & Hy & H).
  apply bind_Ok in H as (yy & Hc & H).
  apply bind_Ok in H as (y1 & Hs & H).
  injection H as <-. simpl. eauto 10.
Qed.

(** ** Rationals: from [Qc] to [Q] *)

Lemma this_QcZ (z : Z) : this (QcZ z) = inject_Z z.
Proof. reflexivity. Qed.

Lemma this_plus (x y : Qc) : (this (x + y)%Qc == this x + this y)%Q.
Proof. apply Qred_correct. Qed.
Lemma this_opp (x : Qc) : (this (- x)%Qc == - this x)%Q.
Proof. apply Qred_correct. Qed.
Lemma this_minus (x y : Qc) : (this (x - y)%Qc == this x - this y)%Q.
Proof. unfold Qcminus. rewrite this_plus, this_opp. reflexivity. Qed.
Lemma this_mult (x y : Qc) : (this (x * y)%Qc == this x * this y)%Q.
Proof. apply Qred_correct. Qed.
Lemma this_half : (this half == 1 # 2)%Q.
Proof. reflexivity. Qed.
Lemma this_quarter : (this quarter == 1 # 4)%Q.
Proof. reflexivity. Qed.

Lemma Qcltb_true (x y : Qc) : Qcltb x y = true <-> (this x < this y)%Q.
Proof. unfold Qcltb. by rewrite bool_decide_eq_true. Qed.
Lemma Qcltb_false (x y : Qc) : Qcltb x y = false <-> (this y <= this x)%Q.
Proof.
  unfold Qcltb. rewrite bool_decide_eq_false. unfold Qclt.
  split; [apply Qnot_lt_le|apply Qle_not_lt].
Qed.

Ltac qc_to_q :=
  repeat first
    [ rewrite this_plus | rewrite this_minus | rewrite this_opp
    | rewrite this_mult | rewrite this_QcZ | rewrite this_half
    | rewrite this_quarter ].
Ltac qc_to_q_in H :=
  repeat first
    [ rewrite this_plus in H | rewrite this_minus in H
    | rewrite this_opp in H | rewrite this_mult in H
    | rewrite this_QcZ in H | rewrite this_half in H
    | rewrite this_quarter in H ].

(** ** Rounding to the nearest integer *)

Lemma round_half_even_cases (q : Qc) :
  let f := Qfloor q in
  (round_half_even q = f /\ (this q <= inject_Z f + (1 # 2))%Q)
  \/ (round_half_even q = f + 1 /\ (inject_Z f + (1 # 2) <= this q)%Q).
Proof.
  intros f. unfold round_half_even, Qc_floor. fold f.
  destruct (Qcltb (q - QcZ f) half) eqn:E1.
  { left. split; [done|]. apply Qcltb_true in E1. qc_to_q_in E1.
    lra. }
  apply Qcltb_false in E1. qc_to_q_in E1.
  destruct (Qcltb half (q - QcZ f)) eqn:E2.
  { right. split; [done|]. lra. }
  apply Qcltb_false in E2. qc_to_q_in E2.
  destruct (Z.even f); [left|right]; (split; [done|lra]).
Qed.

Lemma round_half_even_near (q : Qc) :
  (this q - (1 # 2) <= inject_Z (round_half_even q)
   /\ inject_Z (round_half_even q) <= this q + (1 # 2))%Q.
Proof.
  pose proof (Qfloor_le q) as Hlo. pose proof (Qlt_floor q) as Hhi.
  rewrite inject_Z_plus in Hhi.
  destruct (round_half_even_cases q) as [[-> H]|[-> H]];
    rewrite ?inject_Z_plus; cbv zeta in H;
    change (inject_Z 1) with 1%Q in *; split; lra.
Qed.

Lemma round_half_even_mono (p q : Qc) :
  (this p <= this q)%Q -> round_half_even p <= round_half_even q.
Proof.
  intros Hpq. pose proof (Qfloor_resp_le _ _ Hpq) as Hf.
  destruct (decide (Qfloor p = Qfloor q)) as [Heq|Hne].
  - unfold round_half_even, Qc_floor. rewrite Heq.
    set (f := Qfloor q).
    destruct (Qcltb (p - QcZ f) half) eqn:P1.
    { repeat case_match; lia. }
    apply Qcltb_false in P1. qc_to_q_in P1.
    assert (Q1 : Qcltb (q - QcZ f) half = false).
    { apply Qcltb_false. qc_to_q. lra. }
    rewrite Q1.
    destruct (Qcltb half (p - QcZ f)) eqn:P2.
    { apply Qcltb_true in P2. qc_to_q_in P2.
      assert (Q2 : Qcltb half (q - QcZ f) = true).
      { apply Qcltb_true. qc_to_q. lra. }
      rewrite Q2. lia. }
    repeat case_match; lia.
  - destruct (round_half_even_cases p) as [[-> _]|[-> _]];
      destruct (round_half_even_cases q) as [[-> _]|[-> _]]; lia.
Qed.

Lemma round_half_even_strict (p q : Qc) :
  (this p + 1 < this q)%Q -> round_half_even p < round_half_even q.
Proof.
  intros Hpq.
  destruct (round_half_even_near p) as [_ Hp].
  destruct (round_half_even_near q) as [Hq _].
  assert (H : (inject_Z (round_half_even p)
               < inject_Z (round_half_even q))%Q) by lra.
  by rewrite <- Zlt_Qlt in H.
Qed.

(** ** [find_wedges] (C4, C5, C6) *)

Lemma np_index_0 {A} (l : list A) (a : A) :
  np_index l 0 = Ok a -> exists t, l = a :: t.
Proof.
  destruct l as [|x t]; [discriminate|].
  unfold np_index. simpl. intros [= ->]. by exists t.
Qed.


Lemma np_index_cons_0 {A} (a : A) (t : list A) : np_index (a :: t) 0 = Ok a.
Proof. unfold np_index. simpl. done. Qed.

Lemma y_search_Ok fp Medium img mask res_y n x_pts e yl :
  y_search fp Medium img mask res_y n x_pts = Ok (e, yl) ->
  expected_end Medium n res_y = Ok e.
Proof.
  unfold y_search. intros H.
  apply bind_Ok in H as (q & _ & H).
  apply bind_Ok in H as (e' & He & H).
  apply bind_Ok in H as (inv & _ & H).
  apply bind_Ok in H as (m & _ & H).
  by injection H as <- _.
Qed.


(** C5, as the code has it.  Whenever [find_wedges] succeeds, the expected
    end row of the vertical profile is [n_point + round(50 / res_y)] for
    the standard phantom and [n_point + round(35 / res_y)] for the compact
    one: the northmost row is added in both cases. *)
Theorem expected_end_row fp (Medium : bool) img mask (res : Qc * Qc)
    (w : wedges) :
  find_wedges_full fp Medium img mask res = Ok w ->
  end_point w
  = n_point w
    + round_half_even (QcZ (if Medium then 35 else 50) / res.2)%Qc.
Proof.
  intros H. apply find_wedges_full_Ok in H as (wp & ep & _ & _ & Hy & _).
  apply y_search_Ok, expected_end_Ok in Hy as [_ Hy]. done.
Qed.

Lemma expected_end_row_witness :
  find_wedges_full spec_find_n_highest_peaks true wedge_img_compact
    full_mask wedge_res
  = Ok compact_found
  /\ end_point compact_found
     = n_point compact_found
       + round_half_even (QcZ 35 / wedge_res.2)%Qc.
Proof.
  split; [vm_compute; reflexivity|].
  apply (expected_end_row spec_find_n_highest_peaks true wedge_img_compact
           full_mask wedge_res).
  vm_compute; reflexivity.
Defined.

(** C5, as the claim words it, fails: for the compact phantom, a northmost
    row 10 and 1 mm rows the code expects the end at row 10 + 35 = 45, not
    at row round(35 / 1) = 35. *)
Lemma compact_end_row_adds_northmost_row :
  expected_end true 10 (QcZ 1) = Ok 45
  /\ round_half_even (QcZ 35 / QcZ 1)%Qc = 35
  /\ expected_end true 10 (QcZ 1)
     <> Ok (round_half_even (QcZ 35 / QcZ 1)%Qc).
Proof.
  assert (H1 : expected_end true 10 (QcZ 1) = Ok 45)
    by (vm_compute; reflexivity).
  assert (H2 : round_half_even (QcZ 35 / QcZ 1)%Qc = 35)
    by (vm_compute; reflexivity).
  split; [done|]. split; [done|]. rewrite H1, H2. discriminate.
Qed.




Lemma wedge_centres_Q (x_locs : Z * Z) :
  let lo := Z.min x_locs.1 x_locs.2 in
  let hi := Z.max x_locs.1 x_locs.2 in
  let W := inject_Z (hi - lo) in
  (this (QcZ lo + quarter * QcZ (hi - lo))%Qc
   == inject_Z lo + (1 # 4) * W)%Q
  /\ (this (QcZ hi - quarter * QcZ (hi - lo))%Qc
      == inject_Z lo + W - (1 # 4) * W)%Q.
Proof.
  intros lo hi W. qc_to_q. fold W.
  assert (HW : (inject_Z hi == inject_Z lo + W)%Q).
  { unfold W. rewrite <- inject_Z_plus. f_equiv. lia. }
  rewrite HW. split; reflexivity.
Qed.

Lemma wedge_centres_le (x_locs : Z * Z) :
  (wedge_centres x_locs).1 <= (wedge_centres x_locs).2.
Proof.
  unfold wedge_centres. cbv zeta. cbn [fst snd].
  destruct (wedge_centres_Q x_locs) as [H1 H2]. cbv zeta in H1, H2.
  apply round_half_even_mono. rewrite H1, H2.
  assert (HW : (inject_Z 0 <= inject_Z (Z.max x_locs.1 x_locs.2
                                        - Z.min x_locs.1 x_locs.2))%Q)
    by (rewrite <- Zle_Qle; lia).
  change (inject_Z 0) with 0%Q in HW. lra.
Qed.

Lemma wedge_centres_lt (x_locs : Z * Z) :
  3 <= Z.abs (x_locs.2 - x_locs.1) ->
  (wedge_centres x_locs).1 < (wedge_centres x_locs).2.
Proof.
  intros Hw. unfold wedge_centres. cbv zeta. cbn [fst snd].
  destruct (wedge_centres_Q x_locs) as [H1 H2]. cbv zeta in H1, H2.
  apply round_half_even_strict. rewrite H1, H2.
  assert (HW : (inject_Z 3 <= inject_Z (Z.max x_locs.1 x_locs.2
                                        - Z.min x_locs.1 x_locs.2))%Q)
    by (rewrite <- Zle_Qle; lia).
  change (inject_Z 3) with 3%Q in HW. lra.
Qed.

(** C6, as the code has it.  Whenever [find_wedges] succeeds, the two
    wedge centres it returns are the 25% and 75% points between the two
    detected edges, in this order: [x_left <= x_right].  They are distinct
    ([x_left < x_right]) as soon as the two edges are at least three
    columns apart. *)
Theorem wedge_centres_ordered fp (Medium : bool) img mask (res : Qc * Qc)
    (x_pts : Z * Z) (y_pts : list Z) :
  find_wedges fp Medium img mask res = Ok (x_pts, y_pts) ->
  x_pts.1 <= x_pts.2
  /\ exists w,
      find_wedges_full fp Medium img mask res = Ok w
      /\ x_pts = wedge_centres (x_locs w)
      /\ (3 <= Z.abs ((x_locs w).2 - (x_locs w).1) -> x_pts.1 < x_pts.2).
Proof.
  unfold find_wedges. intros H. apply bind_Ok in H as (w & Hw & H).
  injection H as <- <-.
  destruct (find_wedges_full_Ok _ _ _ _ _ _ Hw)
    as (wp & ep & _ & Hx & _).
  rewrite Hx. split; [apply wedge_centres_le|].
  exists w. split; [done|]. split; [done|]. apply wedge_centres_lt.
Qed.

Lemma wedge_centres_ordered_witness :
  find_wedges spec_find_n_highest_peaks false wedge_img full_mask wedge_res
  = Ok ((3, 6), [1; 9])
  /\ ((3, 6).1 <= (3, 6).2
      /\ exists w,
          find_wedges_full spec_find_n_highest_peaks false wedge_img
            full_mask wedge_res = Ok w
          /\ (3, 6) = wedge_centres (x_locs w)
          /\ (3 <= Z.abs ((x_locs w).2 - (x_locs w).1)
              -> (3, 6).1 < (3, 6).2)).
Proof.
  split; [vm_compute; reflexivity|].
  apply (wedge_centres_ordered spec_find_n_highest_peaks false wedge_img
           full_mask wedge_res (3, 6) [1; 9]).
  vm_compute; reflexivity.
Defined.

(** C6, as the claim words it, fails: in [thin_img] the two detected edges
    are at columns 1 and 3; the 25% and 75% points are 1.5 and 2.5, and
    both round (ties to even) to column 2.  [find_wedges] succeeds and
    returns [x_left = x_right = 2]. *)
Lemma wedge_centres_can_coincide :
  find_wedges spec_find_n_highest_peaks false thin_img full_mask wedge_res
  = Ok ((2, 2), [2; 9])
  /\ wedge_centres (1, 3) = (2, 2)
  /\ ~ (2 < 2).
Proof. split; [|split]; [vm_compute; reflexivity..|lia]. Qed.

(** ** The selected lag *)

Lemma np_index_elem {A} (l : list A) (i : Z) (x : A) :
  np_index l i = Ok x -> x ∈ l.
Proof.
  unfold np_index. case_match; [|discriminate].
  destruct (l !! _) as [y|] eqn:E; [|discriminate].
  intros [= <-]. by eapply list_elem_of_lookup_2.
Qed.

Lemma np_index_nonneg {A} (l : list A) (i : Z) (x : A) :
  0 <= i -> np_index l i = Ok x -> l !! Z.to_nat i = Some x.
Proof.
  intros Hi. unfold np_index.
  destruct (i <? 0) eqn:E; [apply Z.ltb_lt in E; lia|].
  case_match; [|discriminate].
  destruct (l !! _) as [y|] eqn:E'; [|discriminate]. by intros [= <-].
Qed.

Lemma argwhere_eq_elem (err : list Qc) (m : Qc) (t : Z) :
  t ∈ argwhere_eq err m -> 0 <= t /\ err !! Z.to_nat t = Some m.
Proof.
  unfold argwhere_eq. rewrite list_elem_of_omap.
  intros (o & Ho & Hid). simpl in Hid. subst o.
  apply list_elem_of_lookup in Ho as (i & Hi).
  rewrite list_lookup_imap in Hi.
  destruct (err !! i) as [e|] eqn:E; [|discriminate]. simpl in Hi.
  unfold Qceqb in Hi. case_bool_decide; [|discriminate].
  injection Hi as <-. subst e. split; [lia|]. by rewrite Nat2Z.id.
Qed.

Lemma argwhere_eq_head (e : Qc) (err : list Qc) :
  exists t, argwhere_eq (e :: err) e = 0 :: t.
Proof.
  unfold argwhere_eq. rewrite imap_cons. unfold Qceqb at 1.
  rewrite bool_decide_eq_true_2 by done. csimpl. eauto.
Qed.

Lemma lag_error_whole_wrap (static_L static_R : list Qc) :
  (length static_R <= 50)%nat ->
  lag_error static_L static_R (-50) = sentinel.
Proof.
  intros Hlen. unfold lag_error. change (0 <? -50) with false. cbv iota.
  unfold set_slice_nan. rewrite all_nan_imap_None; [done|].
  intros i x Hx. apply lookup_lt_Some in Hx.
  rewrite length_zip_with in Hx.
  rewrite bool_decide_eq_true_2; [done|].
  rewrite length_zip_with.
  unfold slice_lo, slice_hi, slice_bound. simpl. lia.
Qed.

Lemma select_lag_range (err : list Qc) (l : Z) :
  select_lag err = Ok l -> -50 <= l <= 50.
Proof.
  unfold select_lag. intros H.
  apply bind_Ok in H as (m & _ & H). apply bind_Ok in H as (t & _ & H).
  apply np_index_elem in H. by apply elem_of_lag.
Qed.

Lemma select_lag_nonzero (static_L static_R : list Qc) (l : Z) :
  (length static_R <= 50)%nat ->
  select_lag (lag_errors static_L static_R) = Ok l -> l <> 0.
Proof.
  intros Hlen H Hl. subst l. unfold select_lag in H.
  apply bind_Ok in H as (m & _ & H). apply bind_Ok in H as (t & Ht & H).
  pose proof (np_index_0 _ _ Ht) as (rest & Harg).
  assert (Hin : t ∈ argwhere_eq (lag_errors static_L static_R) m)
    by (rewrite Harg; left).
  apply argwhere_eq_elem in Hin as [Ht0 Hm].
  apply np_index_nonneg in H; [|done].
  assert (Ht50 : Z.to_nat t = 50%nat).
  { assert (Hlt : (Z.to_nat t < 101)%nat).
    { apply lookup_lt_Some in H. unfold lag in H.
      by rewrite length_fmap, length_seq in H. }
    rewrite lag_lookup in H by done. injection H as H. lia. }
  rewrite Ht50 in Hm.
  rewrite lag_errors_at_zero in Hm. injection Hm as <-.
  assert (Hhead : lag_errors static_L static_R
                  = sentinel :: (lag_error static_L static_R
                                   <$> ((fun k => Z.of_nat k - 50)
                                          <$> seq 1 100))).
  { unfold lag_errors, lag. change (seq 0 101) with (0%nat :: seq 1 100).
    rewrite !fmap_cons. f_equal. by apply lag_error_whole_wrap. }
  rewrite Hhead in Harg.
  destruct (argwhere_eq_head sentinel
              (lag_error static_L static_R
                 <$> ((fun k => Z.of_nat k - 50) <$> seq 1 100)))
    as (rest' & Hr).
  rewrite Hr in Harg. injection Harg as <- _. simpl in Ht50. lia.
Qed.

Lemma py_slice_window_length {A} (a : list A) (p : Z) :
  (length (py_slice a (Some (p - 10)%Z) (Some (p + 10)%Z)) <= 20)%nat.
Proof.
  unfold py_slice. rewrite length_take.
  unfold slice_lo, slice_hi, slice_bound. simpl.
  repeat case_match; lia.
Qed.

(** ** The shift matcher (C2, C10) *)

Lemma Ok_by_this (r : result Qc) (v : Qc) :
  result_this r = Some (this v) -> r = Ok v.
Proof.
  destruct r as [a|e]; [|discriminate].
  intros [= H]. f_equal. by apply Qc_decomp.
Qed.

Lemma roi_Ok fp (delta : list Qc) (peaks : Z * Z) :
  roi fp delta = Ok peaks -> exists p, peaks = (p - 10, p + 10).
Proof.
  unfold roi. intros H. apply bind_Ok in H as (m & _ & H).
  apply bind_Ok in H as (p & _ & H). injection H as <-. by exists p.
Qed.

Lemma direction_Ok (delta : list Qc) (peaks : Z * Z) (sgn : Z) :
  direction delta peaks = Ok sgn ->
  exists a b,
    np_max (Qcopp <$> py_slice delta (Some peaks.1) (Some peaks.2)) = Ok a
    /\ np_max (py_slice delta (Some peaks.1) (Some peaks.2)) = Ok b
    /\ sgn = (if Qcltb a b then 1 else -1).
Proof.
  unfold direction. intros H. apply bind_Ok in H as (a & Ha & H).
  apply bind_Ok in H as (b & Hb & H). injection H as <-. eauto.
Qed.

Lemma shift_search_Ok fp (iL iR : list Qc) (s : search) :
  shift_search fp iL iR = Ok s ->
  exists p,
    roi fp (zip_with Qcminus iL iR) = Ok (p - 10, p + 10)
    /\ direction (zip_with Qcminus iL iR) (p - 10, p + 10) = Ok (pos s)
    /\ static_line_L s = py_slice iL (Some (p - 10)) (Some (p + 10))
    /\ static_line_R s = py_slice iR (Some (p - 10)) (Some (p + 10))
    /\ err s = lag_errors (static_line_L s) (static_line_R s)
    /\ select_lag (err s) = Ok (lag_temp s).
Proof.
  unfold shift_search. intros H.
  apply bind_Ok in H as (peaks & Hroi & H).
  destruct (roi_Ok _ _ _ Hroi) as (p & ->).
  apply bind_Ok in H as (sgn & Hdir & H).
  apply bind_Ok in H as (l & Hsel & H).
  injection H as <-. exists p. simpl. eauto 10.
Qed.

Lemma shift_match_Ok fp (L R : list Qc) (res_y v : Qc) :
  shift_match fp L R res_y = Ok v ->
  exists iL iR s,
    upsample L R = Ok (iL, iR)
    /\ shift_search fp iL iR = Ok s
    /\ v = dL s res_y.
Proof.
  unfold shift_match. intros H.
  apply bind_Ok in H as ([iL iR] & Hup & H).
  apply bind_Ok in H as (s & Hs & H). injection H as <-. eauto 10.
Qed.

Lemma search_facts fp (iL iR : list Qc) (s : search) :
  shift_search fp iL iR = Ok s ->
  (pos s = 1 \/ pos s = -1)
  /\ -50 <= lag_temp s <= 50
  /\ lag_temp s <> 0
  /\ Z.abs (shift s) = Z.abs (lag_temp s).
Proof.
  intros H. apply shift_search_Ok in H
    as (p & _ & Hdir & HL & HR & Herr & Hsel).
  apply direction_Ok in Hdir as (a & b & _ & _ & Hpos).
  split; [destruct (Qcltb a b); lia|].
  split; [by eapply select_lag_range|].
  split.
  - rewrite Herr in Hsel. eapply select_lag_nonzero; [|exact Hsel].
    rewrite HR. pose proof (py_slice_window_length iR p). lia.
  - unfold shift. destruct (pos s =? 1); lia.
Qed.

Lemma fifth : (1 / QcZ interp_factor)%Qc = Q2Qc (1 # 5).
Proof. apply Qc_is_canon. reflexivity. Qed.

Lemma Qcabs_QcZ (z : Z) : Qcabs (QcZ z) = QcZ (Z.abs z).
Proof.
  apply Qc_is_canon. simpl. unfold Qabs, inject_Z. reflexivity.
Qed.

Lemma dL_abs (s : search) (res_y : Qc) :
  (pos s = 1 \/ pos s = -1) ->
  Qcabs (dL s res_y)
  = (QcZ (Z.abs (shift s)) * Q2Qc (1 # 5) * Qcabs res_y)%Qc.
Proof.
  intros Hpos. unfold dL. rewrite fifth, !Qcabs_Qcmult, !Qcabs_QcZ.
  rewrite Z.abs_idemp.
  assert (Hp : QcZ (Z.abs (pos s)) = 1%Qc)
    by (destruct Hpos as [-> | ->]; apply Qc_is_canon; reflexivity).
  rewrite Hp, Qcmult_1_l. f_equal.
Qed.

Lemma shift_match_bound fp (L R : list Qc) (res_y v : Qc) :
  (0 <= res_y)%Qc ->
  shift_match fp L R res_y = Ok v ->
  (Qcabs v <= QcZ 10 * res_y)%Qc.
Proof.
  intros Hres H. apply shift_match_Ok in H as (iL & iR & s & _ & Hs & ->).
  apply search_facts in Hs as (Hpos & Hrange & _ & Habs).
  rewrite dL_abs by done. rewrite (Qcabs_pos res_y) by done.
  apply Qcmult_le_compat_r; [|done].
  unfold Qcle. qc_to_q. simpl.
  assert (H50 : (inject_Z (Z.abs (shift s)) <= inject_Z 50)%Q)
    by (rewrite <- Zle_Qle; lia).
  change (inject_Z 50) with 50%Q in H50. change (inject_Z 10) with 10%Q.
  change (Qred (1 # 5)) with (1 # 5)%Q. lra.
Qed.

Lemma get_slice_position_Ok fp Medium mask (dcm : dcm_t) (v : Qc) :
  get_slice_position fp Medium mask dcm = Ok v ->
  exists L R, shift_match fp L R (PixelSpacing dcm).2 = Ok v.
Proof.
  unfold get_slice_position. intros H.
  apply bind_Ok in H as ([xp yp] & _ & H).
  apply bind_Ok in H as (y0' & _ & H).
  apply bind_Ok in H as (y1' & _ & H). eauto.
Qed.

(** C10.  Every measurement that succeeds on an image whose row spacing is
    not negative is at most [10 * res_y] in absolute value: the lag
    selected lies in [-50, 50] and the result is plus or minus
    [|lag| / 5 * res_y]. *)
Theorem length_difference_bounded fp (Medium : bool) mask (dcm : dcm_t)
    (v : Qc) :
  (0 <= (PixelSpacing dcm).2)%Qc ->
  get_slice_position fp Medium mask dcm = Ok v ->
  (Qcabs v <= QcZ 10 * (PixelSpacing dcm).2)%Qc.
Proof.
  intros Hres H. apply get_slice_position_Ok in H as (L & R & H).
  by eapply shift_match_bound.
Qed.

Lemma length_difference_bounded_witness :
  (0 <= (PixelSpacing slice_1).2)%Qc
  /\ get_slice_position spec_find_n_highest_peaks false full_mask
       slice_1 = Ok (QcZ 4)
  /\ (Qcabs (QcZ 4)
      <= QcZ 10 * (PixelSpacing slice_1).2)%Qc.
Proof.
  assert (H : get_slice_position spec_find_n_highest_peaks false full_mask
                slice_1 = Ok (QcZ 4)).
  { apply Ok_by_this. vm_compute. reflexivity. }
  split; [discriminate|]. split; [exact H|].
  apply (length_difference_bounded spec_find_n_highest_peaks false
           full_mask slice_1 (QcZ 4)).
  - discriminate.
  - exact H.
Defined.

Lemma upsample_Ok (L R iL iR : list Qc) :
  upsample L R = Ok (iL, iR) ->
  interp_line_prof (length L) L = Ok iL
  /\ interp_line_prof (length L) R = Ok iR.
Proof.
  unfold upsample. intros H. apply bind_Ok in H as (l & Hl & H).
  apply bind_Ok in H as (r & Hr & H). by injection H as <- <-.
Qed.

Lemma zip_with_minus_self (l : list Qc) :
  Forall (fun x => x = 0%Qc) (zip_with Qcminus l l).
Proof.
  induction l as [|x l IH]; [constructor|].
  simpl. constructor; [|done]. unfold Qcminus. apply Qcplus_opp_r.
Qed.

Lemma py_slice_Forall {A} (P : A -> Prop) (a : list A) start stop :
  Forall P a -> Forall P (py_slice a start stop).
Proof. intros H. unfold py_slice. by apply Forall_take, Forall_drop. Qed.

Lemma np_max_zeros (l : list Qc) (m : Qc) :
  Forall (fun x => x = 0%Qc) l -> np_max l = Ok m -> m = 0%Qc.
Proof.
  destruct l as [|x l]; [discriminate|].
  intros H. apply Forall_cons in H as [-> H]. simpl. intros [= <-].
  induction H as [|y l -> _ IH]; [done|]. simpl. exact IH.
Qed.

Lemma direction_zeros (delta : list Qc) (peaks : Z * Z) (sgn : Z) :
  Forall (fun x => x = 0%Qc) delta ->
  direction delta peaks = Ok sgn -> sgn = -1.
Proof.
  intros Hz H. apply direction_Ok in H as (a & b & Ha & Hb & ->).
  pose proof (py_slice_Forall _ _ (Some peaks.1) (Some peaks.2) Hz) as Hd.
  apply np_max_zeros in Hb as ->; [|done].
  apply np_max_zeros in Ha as ->; [done|].
  apply Forall_fmap. eapply Forall_impl; [exact Hd|].
  intros x ->. apply Qc_is_canon. reflexivity.
Qed.

Lemma QcZ_nonzero (z : Z) : z <> 0 -> QcZ z <> 0%Qc.
Proof.
  intros Hz H. apply (f_equal this) in H. unfold QcZ in H. simpl in H.
  injection H as H. done.
Qed.

(** C2, as the code has it.  On two identical profiles the shift matcher
    never answers 0 for a non-zero row spacing: either it raises (the peak
    finder found no peak in the all-zero difference, or the window around
    the peak is empty), or the sign is -1 and the lag selected is one of
    the non-zero lags, and the answer is [-1 * k * (1 / 5) * res_y] for
    some [k] from 1 to 50. *)
Theorem identical_profiles_never_zero fp (line_prof : list Qc) (res_y : Qc) :
  match shift_match fp line_prof line_prof res_y with
  | Ok v =>
    exists k, 1 <= k <= 50
      /\ v = (QcZ (-1) * QcZ k * (1 / QcZ interp_factor) * res_y)%Qc
      /\ (res_y <> 0%Qc -> v <> 0%Qc)
  | Raise _ => True
  end.
Proof.
  destruct (shift_match fp line_prof line_prof res_y) as [v|e] eqn:H;
    [|done].
  apply shift_match_Ok in H as (iL & iR & s & Hup & Hs & ->).
  apply upsample_Ok in Hup as [HL HR]. rewrite HL in HR.
  injection HR as <-.
  pose proof (search_facts _ _ _ _ Hs) as (_ & Hrange & Hnz & Habs).
  apply shift_search_Ok in Hs as (p & _ & Hdir & _).
  apply direction_zeros in Hdir; [|apply zip_with_minus_self].
  exists (Z.abs (lag_temp s)). split; [lia|].
  assert (HdL : dL s res_y
                = (QcZ (-1) * QcZ (Z.abs (lag_temp s))
                   * (1 / QcZ interp_factor) * res_y)%Qc).
  { unfold dL. by rewrite Habs, Hdir. }
  split; [done|]. intros Hres. rewrite HdL. intros H0.
  apply Qcmult_integral in H0 as [H0|H0]; [|done].
  apply Qcmult_integral in H0 as [H0|H0]; [|by rewrite fifth in H0].
  apply Qcmult_integral in H0 as [H0|H0]; [done|].
  revert H0. apply QcZ_nonzero. lia.
Qed.

(** C2, as the claim words it, fails: on the identical profiles
    [1, 2, 3, 4, 5, 6] the difference is zero everywhere, the peak finder
    modelled from the spec finds no local maximum in it, and [peaks[0]]
    raises [IndexError]: nothing is returned, and in particular not 0.
    Were a peak reported all the same, say at sample 15, the answer would
    be -1/5. *)
Lemma identical_profiles_do_not_return_zero :
  shift_match spec_find_n_highest_peaks
    (np_array [1; 2; 3; 4; 5; 6]) (np_array [1; 2; 3; 4; 5; 6]) (QcZ 1)
  = Raise IndexError
  /\ shift_match spec_find_n_highest_peaks
       (np_array [1; 2; 3; 4; 5; 6]) (np_array [1; 2; 3; 4; 5; 6]) (QcZ 1)
     <> Ok 0%Qc
  /\ result_this
       (shift_match (fun _ _ _ => [15])
          (np_array [1; 2; 3; 4; 5; 6]) (np_array [1; 2; 3; 4; 5; 6])
          (QcZ 1))
     = Some (-1 # 5)%Q.
Proof.
  assert (H : shift_match spec_find_n_highest_peaks
                (np_array [1; 2; 3; 4; 5; 6]) (np_array [1; 2; 3; 4; 5; 6])
                (QcZ 1) = Raise IndexError) by (vm_compute; reflexivity).
  split; [done|]. split; [rewrite H; discriminate|].
  vm_compute; reflexivity.
Qed.

(** ** Adding a constant to both profiles (C7) *)












(** ** Upsampling (C3) *)

Lemma QcZ_plus (a b : Z) : QcZ (a + b) = (QcZ a + QcZ b)%Qc.
Proof.
  apply Qc_is_canon. rewrite this_plus, !this_QcZ, inject_Z_plus.
  reflexivity.
Qed.

Lemma this_fifth : (this (1 / QcZ interp_factor)%Qc == 1 # 5)%Q.
Proof. rewrite fifth. reflexivity. Qed.

Lemma new_x_lt (k i : Z) :
  (QcZ (k + 1) < 1 + QcZ i * (1 / QcZ interp_factor))%Qc <-> 5 * k < i.
Proof.
  unfold Qclt. qc_to_q. rewrite this_fifth, inject_Z_plus.
  change (this 1%Qc) with 1%Q. change (inject_Z 1) with 1%Q.
  rewrite (Zlt_Qlt (5 * k) i), inject_Z_mult.
  change (inject_Z 5) with 5%Q. split; intros H; lra.
Qed.

Lemma searchsorted_new_x (n : nat) (i : Z) :
  0 <= i ->
  searchsorted (arange_x n) (1 + QcZ i * (1 / QcZ interp_factor))%Qc
  = Z.min (Z.of_nat n) ((i + 4) / 5).
Proof.
  intros Hi. unfold searchsorted, arange_x.
  assert (Hc : 0 <= (i + 4) / 5) by (apply Z.div_pos; lia).
  assert (Hdiv : forall k : Z, 5 * k < i <-> k < (i + 4) / 5).
  { intros k. split; intros H; Z.to_euclidean_division_equations; lia. }
  induction n as [|n IH]; [simpl; lia|].
  rewrite seq_S, fmap_app, filter_app, length_app, Nat2Z.inj_add, IH.
  simpl. rewrite filter_cons, filter_nil.
  destruct (decide _) as [Hlt|Hge].
  - apply new_x_lt, Hdiv in Hlt. simpl. lia.
  - rewrite new_x_lt, Hdiv in Hge. simpl. lia.
Qed.

Lemma np_index_lookup {A} (l : list A) (i : Z) (x : A) :
  0 <= i -> l !! Z.to_nat i = Some x -> np_index l i = Ok x.
Proof.
  intros Hi Hx. unfold np_index.
  destruct (i <? 0) eqn:E; [apply Z.ltb_lt in E; lia|].
  apply lookup_lt_Some in Hx as Hlt.
  rewrite andb_true_intro; [by rewrite Hx|].
  split; [by apply Z.leb_le|apply Z.ltb_lt; lia].
Qed.

Lemma np_index_last {A} (l : list A) (x : A) :
  l !! (length l - 1)%nat = Some x -> np_index l (-1) = Ok x.
Proof.
  intros Hx. unfold np_index. change (-1 <? 0) with true. cbv iota.
  apply lookup_lt_Some in Hx as Hlt.
  rewrite andb_true_intro.
  - replace (Z.to_nat (-1 + Z.of_nat (length l)))
      with (length l - 1)%nat by lia.
    by rewrite Hx.
  - split; [apply Z.leb_le|apply Z.ltb_lt]; lia.
Qed.

Lemma arange_x_lookup (n : nat) (k : nat) :
  (k < n)%nat -> arange_x n !! k = Some (QcZ (Z.of_nat k + 1)).
Proof.
  intros Hk. unfold arange_x.
  by rewrite list_lookup_fmap, lookup_seq_lt.
Qed.

Lemma arange_x_length (n : nat) : length (arange_x n) = n.
Proof. unfold arange_x. by rewrite length_fmap, length_seq. Qed.

Lemma mapM_fmap_Ok {A B C} (f : B -> result C) (h : A -> B) (g : A -> C)
    (l : list A) :
  (forall a, a ∈ l -> f (h a) = Ok (g a)) ->
  mapM f (h <$> l) = Ok (g <$> l).
Proof.
  induction l as [|a l IH]; intros Hf; [done|].
  change (mapM f (h <$> a :: l))
    with (y ← f (h a); k ← mapM f (h <$> l); mret (y :: k)).
  rewrite Hf by left.
  rewrite IH by (intros b Hb; apply Hf; by right). done.
Qed.

Lemma QcZ_mult (a b : Z) : QcZ (a * b) = (QcZ a * QcZ b)%Qc.
Proof.
  apply Qc_is_canon. rewrite this_mult, !this_QcZ, inject_Z_mult.
  reflexivity.
Qed.

Lemma QcZ_0 : QcZ 0 = 0%Qc.
Proof. by apply Qc_is_canon. Qed.

Lemma QcZ_1 : QcZ 1 = 1%Qc.
Proof. by apply Qc_is_canon. Qed.

(** [field] on goals that mention integers: each [QcZ z] is an atom. *)
Ltac qc_field :=
  repeat match goal with
         | |- context [QcZ ?z] =>
           let c := fresh "c" in set (c := QcZ z) in *; clearbody c
         end;
  cbn [id]; field.

Lemma interp1d_at_new_x (y : list Qc) (i : nat) :
  (2 <= length y)%nat -> (i <= 5 * (length y - 1))%nat ->
  interp1d_at (arange_x (length y)) y
    (1 + QcZ (Z.of_nat i) * (1 / QcZ interp_factor))%Qc
  = Ok (let q := (i / 5)%nat in
        let r := (i mod 5)%nat in
        let a := default 0%Qc (y !! q) in
        let b := default a (y !! S q) in
        (a + QcZ (Z.of_nat r) / QcZ 5 * (b - a))%Qc).
Proof.
  intros Hn Hi. set (n := length y) in *.
  set (v := (1 + QcZ (Z.of_nat i) * (1 / QcZ interp_factor))%Qc).
  pose proof (Nat.div_mod_eq i 5) as Hqr.
  pose proof (Nat.mod_upper_bound i 5 ltac:(lia)) as Hr.
  set (q := (i / 5)%nat) in *. set (r := (i mod 5)%nat) in *.
  cbv zeta. unfold interp1d_at.
  rewrite (np_index_lookup (arange_x n) 0 (QcZ 1))
    by (done || by apply arange_x_lookup; lia).
  rewrite (np_index_last (arange_x n) (QcZ (Z.of_nat n))).
  2:{ rewrite arange_x_length, arange_x_lookup by lia. do 2 f_equal. lia. }
  cbn [mbind result_bind].
  assert (Hv1 : Qcltb v (QcZ 1) = false).
  { apply Qcltb_false. unfold v. qc_to_q. rewrite this_fifth.
    change (this 1%Qc) with 1%Q. change (inject_Z 1) with 1%Q.
    assert (H0 : (inject_Z 0 <= inject_Z (Z.of_nat i))%Q)
      by (rewrite <- Zle_Qle; lia).
    change (inject_Z 0) with 0%Q in H0. lra. }
  assert (Hvn : Qcltb (QcZ (Z.of_nat n)) v = false).
  { apply Qcltb_false. unfold v. qc_to_q. rewrite this_fifth.
    change (this 1%Qc) with 1%Q.
    assert (H0 : (inject_Z (Z.of_nat i + 5) <= inject_Z (5 * Z.of_nat n))%Q)
      by (rewrite <- Zle_Qle; lia).
    rewrite inject_Z_mult, inject_Z_plus in H0.
    change (inject_Z 5) with 5%Q in H0. lra. }
  rewrite Hv1, Hvn. cbn [orb].
  rewrite bool_decide_eq_false_2 by (rewrite arange_x_length; lia).
  subst v. rewrite searchsorted_new_x, arange_x_length by lia.
  fold n.
  set (hiN := if decide (r = 0)%nat then Nat.max q 1 else S q).
  assert (Hhi : clip (Z.min (Z.of_nat n) ((Z.of_nat i + 4) / 5)) 1
                  (Z.of_nat n - 1) = Z.of_nat hiN).
  { unfold clip, hiN. destruct (decide (r = 0)%nat);
      Z.to_euclidean_division_equations; lia. }
  rewrite Hhi.
  assert (HhiN : (1 <= hiN < n)%nat).
  { unfold hiN. destruct (decide (r = 0)%nat); lia. }
  rewrite (np_index_lookup (arange_x n) (Z.of_nat hiN - 1)
             (QcZ (Z.of_nat hiN))).
  2: lia.
  2:{ rewrite arange_x_lookup by lia. do 2 f_equal. lia. }
  rewrite (np_index_lookup (arange_x n) (Z.of_nat hiN)
             (QcZ (Z.of_nat hiN + 1))).
  2: lia.
  2:{ rewrite Nat2Z.id. apply arange_x_lookup. lia. }
  cbn [mbind result_bind].
  destruct (lookup_lt_is_Some_2 y (hiN - 1)) as [y_lo Hlo]; [lia|].
  destruct (lookup_lt_is_Some_2 y hiN) as [y_hi Hhi']; [lia|].
  rewrite (np_index_lookup y (Z.of_nat hiN - 1) y_lo).
  2: lia.
  2:{ replace (Z.to_nat (Z.of_nat hiN - 1)) with (hiN - 1)%nat by lia.
      done. }
  rewrite (np_index_lookup y (Z.of_nat hiN) y_hi).
  2: lia.
  2:{ by rewrite Nat2Z.id. }
  cbn [mbind result_bind mret result_ret]. f_equal.
  assert (H5 : QcZ 5 <> 0%Qc) by done.
  assert (Hden : (QcZ (Z.of_nat hiN + 1) - QcZ (Z.of_nat hiN))%Qc = 1%Qc)
    by (rewrite QcZ_plus, QcZ_1; ring).
  assert (Hi5 : QcZ (Z.of_nat i)
                = (QcZ 5 * QcZ (Z.of_nat q) + QcZ (Z.of_nat r))%Qc).
  { rewrite <- QcZ_mult, <- QcZ_plus. f_equal. lia. }
  rewrite Hden, Hi5. change interp_factor with 5.
  unfold hiN in *. destruct (decide (r = 0)%nat) as [Hr0|Hr0].
  - rewrite Hr0. change (Z.of_nat 0) with 0. rewrite QcZ_0.
    destruct (decide (q = 0)%nat) as [Hq0|Hq0].
    + rewrite Hq0 in *. change (Nat.max 0 1) with 1%nat in *.
      change (1 - 1)%nat with 0%nat in Hlo.
      rewrite Hlo. cbn [default from_option].
      change (Z.of_nat 0) with 0. change (Z.of_nat 1) with 1.
      rewrite QcZ_0, QcZ_1. by qc_field.
    + replace (Nat.max q 1) with q in * by lia.
      rewrite Hhi'. cbn [default from_option].
      assert (Hq1 : QcZ (Z.of_nat q) = (QcZ (Z.of_nat (q - 1)) + 1)%Qc).
      { rewrite <- QcZ_1, <- QcZ_plus. f_equal. lia. }
      by qc_field.
  - replace (S q - 1)%nat with q in Hlo by lia. rewrite Hlo, Hhi'.
    cbn [default from_option].
    assert (Hq1 : QcZ (Z.of_nat (S q)) = (QcZ (Z.of_nat q) + 1)%Qc).
    { rewrite <- QcZ_1, <- QcZ_plus. f_equal. lia. }
    rewrite Hq1. by qc_field.
Qed.

Lemma all_between_spec (k : nat) (n : Z) (P : Z -> bool) :
  all_between k n P = true ->
  forall m, n <= m < n + Z.of_nat k -> P m = true.
Proof.
  revert n. induction k as [|k IH]; intros n H m Hm; [lia|].
  simpl in H. apply andb_true_iff in H as [Hn Hk].
  destruct (decide (m = n)) as [->|Hne]; [done|].
  apply (IH (n + 1)); [done|lia].
Qed.

Lemma arange_length_checked :
  all_between (Z.to_nat (max_rows - 2)) 3
    (fun n => arange_length n =? 5 * (n - 1) + 1) = true.
Proof. vm_compute. reflexivity. Qed.

Lemma arange_length_regular (n : nat) :
  3 <= Z.of_nat n <= max_rows ->
  Z.to_nat (arange_length (Z.of_nat n)) = (5 * (n - 1) + 1)%nat.
Proof.
  intros Hn.
  pose proof (all_between_spec _ _ _ arange_length_checked (Z.of_nat n))
    as H.
  rewrite Z.eqb_eq in H. rewrite H; [lia|].
  rewrite Z2Nat.id by (unfold max_rows; lia). lia.
Qed.


(** The quotient behind it: a little above 6 in binary64, where 6 is the
    quotient of 1.2 by 0.2 in exact arithmetic. *)
Lemma arange_two_quotient :
  (6 <? ((2 + 1 / 5) - 1) / (1 / 5))%float = true
  /\ (((2 + 1 / 5) - 1) / (1 / 5) <? 7)%float = true
  /\ float_ceil (((2 + 1 / 5) - 1) / (1 / 5))%float = 7.
Proof. repeat split; vm_compute; reflexivity. Qed.

Lemma interp_line_prof_linear (profile : list Qc) :
  3 <= Z.of_nat (length profile) <= max_rows ->
  interp_line_prof (length profile) profile = Ok (linear_upsample profile).
Proof.
  intros Hn. unfold interp_line_prof, interp1d.
  rewrite arange_x_length, bool_decide_eq_true_2 by lia.
  unfold arange_new_x, linear_upsample.
  rewrite arange_length_regular by done.
  apply (mapM_fmap_Ok (interp1d_at (arange_x (length profile)) profile)
           (fun i : nat =>
              (1 + QcZ (Z.of_nat i) * (1 / QcZ interp_factor))%Qc)).
  intros i Hi. apply elem_of_seq in Hi.
  apply interp1d_at_new_x; lia.
Qed.


Lemma upsample_linear (L R : list Qc) :
  length L = length R -> 3 <= Z.of_nat (length L) <= max_rows ->
  upsample L R = Ok (linear_upsample L, linear_upsample R).
Proof.
  intros Hlen Hn. unfold upsample.
  rewrite interp_line_prof_linear by done.
  rewrite Hlen, interp_line_prof_linear by lia. done.
Qed.






(** The matcher does return on these two profiles: the sign is 1, the lag
    selected is -4, the shift 4 and the length difference 4 mm. *)
Lemma shift_match_example :
  result_this
    (shift_match spec_find_n_highest_peaks left_profile right_profile
       (QcZ 5)) = Some (4 # 1)%Q
  /\ (pos <$> shift_search spec_find_n_highest_peaks
                (linear_upsample left_profile)
                (linear_upsample right_profile)) = Ok 1
  /\ (lag_temp <$> shift_search spec_find_n_highest_peaks
                     (linear_upsample left_profile)
                     (linear_upsample right_profile)) = Ok (-4).
Proof. repeat split; vm_compute; reflexivity. Qed.

(** ** [run] (C8) *)



(** Both branches are taken: the first series is measured, 4 mm and
    -4 mm; the second aborts on its last image, after the first image was
    measured, with one line on the standard output and the traceback. *)
Lemma run_examples :
  (let '(out, r) := run spec_find_n_highest_peaks false full_mask
                      [slice_1; slice_11] SeriesDescription false id in
   out = []
   /\ match r with
      | Ok results =>
        this <$> measurement results !! "slice 1" = Some (4 # 1)%Q
        /\ this <$> measurement results !! "slice 11" = Some (-4 # 1)%Q
        /\ report_image results = None
      | Raise _ => False
      end)
  /\ run spec_find_n_highest_peaks false full_mask
       [slice_1; slice_thin] SeriesDescription false id
     = ([Print "Could not calculate the bar length difference for thin because of : IndexError";
         PrintExc IndexError],
        Raise (Exception "IndexError")).
Proof. split; [|vm_compute; reflexivity]. vm_compute. done. Qed.
(** ** Every lag of the search *)

Lemma lag_error_long_lag (static_L static_R : list Qc) (lag_val : Z) :
  Z.of_nat (length static_R) <= Z.abs lag_val ->
  lag_error static_L static_R lag_val = sentinel.
Proof.
  intros Hlen. unfold lag_error.
  assert (Hall : forall start stop d,
    (length d <= length static_R)%nat ->
    slice_lo (Z.of_nat (length d)) start = 0%nat ->
    slice_hi (Z.of_nat (length d)) stop = length d ->
    all_nan (set_slice_nan d start stop) = true).
  { intros start stop d Hd Hlo Hhi. unfold set_slice_nan.
    apply all_nan_imap_None. intros i x Hx. apply lookup_lt_Some in Hx.
    rewrite bool_decide_eq_true_2; [done|]. lia. }
  set (d := zip_with _ _ _).
  assert (Hd : (length d <= length static_R)%nat).
  { unfold d. rewrite length_zip_with. lia. }
  destruct (0 <? lag_val) eqn:Hpos.
  - apply Z.ltb_lt in Hpos. rewrite Hall; [done|done|done|].
    unfold slice_hi, slice_bound. simpl.
    destruct (lag_val <? 0) eqn:E; [apply Z.ltb_lt in E; lia|]. lia.
  - apply Z.ltb_ge in Hpos. rewrite Hall; [done|done| |].
    + unfold slice_lo, slice_bound. simpl.
      destruct (lag_val <? 0) eqn:E; [apply Z.ltb_lt in E|]; lia.
    + unfold slice_hi. simpl. lia.
Qed.

Lemma Qcmin_cases (x y : Qc) :
  (Qcmin x y = x /\ (x <= y)%Qc) \/ (Qcmin x y = y /\ (y <= x)%Qc).
Proof.
  unfold Qcmin, Qcltb. case_bool_decide as H.
  - right. split; [done|]. by apply Qclt_le_weak.
  - left. split; [done|]. by apply Qcnot_lt_le.
Qed.

Lemma foldl_Qcmin_spec (t : list Qc) (x : Qc) :
  foldl Qcmin x t ∈ x :: t
  /\ forall y, y ∈ x :: t -> (foldl Qcmin x t <= y)%Qc.
Proof.
  revert x. induction t as [|z t IH]; intros x; simpl.
  - split; [left|]. intros y Hy. apply list_elem_of_singleton in Hy as ->.
    apply Qcle_refl.
  - destruct (IH (Qcmin x z)) as [Hin Hle]. split.
    + apply elem_of_cons in Hin as [Hin|Hin].
      * rewrite Hin. destruct (Qcmin_cases x z) as [[-> _]|[-> _]].
        -- left.
        -- right. left.
      * right. by right.
    + intros y Hy.
      assert (Hm : (foldl Qcmin (Qcmin x z) t <= Qcmin x z)%Qc)
        by (apply Hle; left).
      apply elem_of_cons in Hy as [->|Hy].
      * eapply Qcle_trans; [exact Hm|].
        destruct (Qcmin_cases x z) as [[-> _]|[-> H]]; [apply Qcle_refl|done].
      * apply elem_of_cons in Hy as [->|Hy].
        -- eapply Qcle_trans; [exact Hm|].
           destruct (Qcmin_cases x z) as [[-> H]|[-> _]];
             [done|apply Qcle_refl].
        -- apply Hle. by right.
Qed.

Lemma np_min_spec (l : list Qc) (m : Qc) :
  np_min l = Ok m -> m ∈ l /\ forall y, y ∈ l -> (m <= y)%Qc.
Proof.
  destruct l as [|x t]; [discriminate|]. simpl. intros [= <-].
  apply foldl_Qcmin_spec.
Qed.

Lemma np_min_nonempty (l : list Qc) (x : Qc) :
  x ∈ l -> exists m, np_min l = Ok m.
Proof. destruct l as [|y t]; [by intros ?%elem_of_nil|]. simpl. eauto. Qed.

Lemma argwhere_eq_first_from (m : Qc) (err : list Qc) (o : nat) (t : Z)
    (rest : list Z) :
  omap id (imap (fun i e => if Qceqb e m then Some (Z.of_nat (o + i))
                            else None) err) = t :: rest ->
  exists j : nat,
    t = Z.of_nat (o + j) /\ err !! j = Some m
    /\ forall j' : nat, (j' < j)%nat -> err !! j' <> Some m.
Proof.
  revert o. induction err as [|e err IH]; intros o; [discriminate|].
  rewrite imap_cons. unfold Qceqb at 1. case_bool_decide as He.
  - csimpl. intros [= <- _]. exists 0%nat. subst e.
    split; [done|]. split; [done|]. lia.
  - csimpl. intros H.
    rewrite (imap_ext _ (fun i e => if Qceqb e m then Some (Z.of_nat (S o + i))
                                    else None)) in H.
    2:{ intros i x _. simpl. destruct (Qceqb x m); [|done].
        do 2 f_equal. lia. }
    apply IH in H as (j & -> & Hj & Hfirst). exists (S j).
    split; [f_equal; lia|]. split; [done|].
    intros [|j'] Hlt; simpl; [congruence|]. apply Hfirst. lia.
Qed.

Lemma argwhere_eq_first (m : Qc) (err : list Qc) (t : Z) :
  np_index (argwhere_eq err m) 0 = Ok t ->
  exists j : nat,
    t = Z.of_nat j /\ err !! j = Some m
    /\ forall j' : nat, (j' < j)%nat -> err !! j' <> Some m.
Proof.
  intros H. apply np_index_0 in H as (rest & H).
  apply (argwhere_eq_first_from m err 0 t rest) in H. exact H.
Qed.

Lemma argwhere_eq_nonempty (m : Qc) (err : list Qc) :
  m ∈ err -> exists t, np_index (argwhere_eq err m) 0 = Ok t.
Proof.
  intros Hin. apply list_elem_of_lookup in Hin as (i & Hi).
  assert (Hel : Z.of_nat i ∈ argwhere_eq err m).
  { unfold argwhere_eq. apply list_elem_of_omap. exists (Some (Z.of_nat i)).
    split; [|done]. apply list_elem_of_lookup. exists i.
    rewrite list_lookup_imap, Hi. simpl. unfold Qceqb.
    by rewrite bool_decide_eq_true_2. }
  destruct (argwhere_eq err m) as [|t rest]; [by apply elem_of_nil in Hel|].
  exists t. apply np_index_cons_0.
Qed.

Lemma lag_errors_length (static_L static_R : list Qc) :
  length (lag_errors static_L static_R) = 101%nat.
Proof. unfold lag_errors. by rewrite length_fmap. Qed.

Lemma lag_errors_lookup (static_L static_R : list Qc) (k : nat) :
  (k < 101)%nat ->
  lag_errors static_L static_R !! k
  = Some (lag_error static_L static_R (Z.of_nat k - 50)).
Proof.
  intros Hk. unfold lag_errors. by rewrite list_lookup_fmap, lag_lookup.
Qed.

Lemma sentinel_positive : (0 < sentinel)%Qc.
Proof. done. Qed.

Lemma np_index_lag (k : nat) :
  (k < 101)%nat -> np_index lag (Z.of_nat k) = Ok (Z.of_nat k - 50).
Proof.
  intros Hk. unfold np_index.
  assert (Hlen : length lag = 101%nat) by (unfold lag; by rewrite length_fmap).
  rewrite Hlen.
  destruct (Z.of_nat k <? 0) eqn:E; [apply Z.ltb_lt in E; lia|].
  assert (Hb : (0 <=? Z.of_nat k) && (Z.of_nat k <? Z.of_nat 101) = true).
  { apply andb_true_iff. split; [apply Z.leb_le|apply Z.ltb_lt]; lia. }
  rewrite Hb, Nat2Z.id, lag_lookup by done. done.
Qed.

Lemma select_lag_first_least (err : list Qc) (e0 : Qc) :
  length err = 101%nat -> e0 ∈ err -> (0 < e0)%Qc ->
  exists (k : nat) (m : Qc),
    select_lag err = Ok (Z.of_nat k - 50)
    /\ err !! k = Some m
    /\ (0 < m)%Qc
    /\ (forall e, e ∈ err -> (0 < e)%Qc -> (m <= e)%Qc)
    /\ (forall j, (j < k)%nat -> err !! j <> Some m).
Proof.
  intros Hlen He0 Hpos0.
  assert (Hs : e0 ∈ filter (fun e => (0 < e)%Qc) err)
    by (by apply list_elem_of_filter).
  destruct (np_min_nonempty _ _ Hs) as (m & Hm).
  destruct (np_min_spec _ _ Hm) as [Hin Hle].
  apply list_elem_of_filter in Hin as [Hpos Hin].
  destruct (argwhere_eq_nonempty m err Hin) as (t & Ht).
  destruct (argwhere_eq_first m err t Ht) as (k & -> & Hk & Hfirst).
  assert (Hlt : (k < 101)%nat) by (apply lookup_lt_Some in Hk; lia).
  exists k, m. split.
  { unfold select_lag. rewrite Hm. cbn [mbind result_bind].
    rewrite Ht. cbn [mbind result_bind]. by apply np_index_lag. }
  split; [done|]. split; [done|]. split; [|done].
  intros e He Hepos. apply Hle. by apply list_elem_of_filter.
Qed.

Lemma select_lag_spec (static_L static_R : list Qc) :
  exists (k : nat) (m : Qc),
    select_lag (lag_errors static_L static_R) = Ok (Z.of_nat k - 50)
    /\ (k < 101)%nat
    /\ lag_error static_L static_R (Z.of_nat k - 50) = m
    /\ (0 < m)%Qc /\ (m <= sentinel)%Qc
    /\ (forall l, -50 <= l <= 50 ->
          (0 < lag_error static_L static_R l)%Qc ->
          (m <= lag_error static_L static_R l)%Qc)
    /\ (forall l, -50 <= l < Z.of_nat k - 50 ->
          lag_error static_L static_R l <> m).
Proof.
  pose proof (lag_errors_at_zero static_L static_R) as H0.
  apply list_elem_of_lookup_2 in H0.
  destruct (select_lag_first_least _ sentinel
              (lag_errors_length static_L static_R) H0 sentinel_positive)
    as (k & m & Hsel & Hk & Hpos & Hle & Hfirst).
  assert (Hlt : (k < 101)%nat).
  { apply lookup_lt_Some in Hk. by rewrite lag_errors_length in Hk. }
  rewrite lag_errors_lookup in Hk by done. injection Hk as Hk.
  exists k, m. split; [done|]. split; [done|]. split; [done|].
  split; [done|]. split; [by apply Hle|]. split.
  - intros l Hl Hlpos. apply Hle; [|done].
    apply (list_elem_of_lookup_2 _ (Z.to_nat (l + 50))).
    rewrite lag_errors_lookup by lia. do 2 f_equal. lia.
  - intros l Hl Heq. apply (Hfirst (Z.to_nat (l + 50))); [lia|].
    rewrite lag_errors_lookup by lia. rewrite <- Heq.
    do 2 f_equal. lia.
Qed.

(** X2.  For two static segments of one length [n], every lag of absolute
    value [n] or more is given the filler error 1e10, whatever the
    segments hold: the masked slice covers the whole residual. *)
Theorem long_lag_error_is_sentinel (static_L static_R : list Qc)
    (lag_val : Z) :
  length static_L = length static_R ->
  Z.of_nat (length static_R) <= Z.abs lag_val ->
  lag_error static_L static_R lag_val = sentinel.
Proof. intros _. apply lag_error_long_lag. Qed.

Lemma long_lag_error_is_sentinel_witness :
  length (np_array [0; 4; 9]) = length (np_array [5; 1; -1])
  /\ Z.of_nat (length (np_array [5; 1; -1])) <= Z.abs (-3)
  /\ lag_error (np_array [0; 4; 9]) (np_array [5; 1; -1]) (-3) = sentinel.
Proof.
  split; [reflexivity|]. split; [vm_compute; discriminate|].
  apply (long_lag_error_is_sentinel (np_array [0; 4; 9])
           (np_array [5; 1; -1]) (-3)); [reflexivity|].
  vm_compute; discriminate.
Defined.

(** X3.  The selection of the lag never raises.  Whatever the two static
    segments hold, [err[err > 0]] is not empty (lag 0 has the filler
    error), and the lag selected is the first lag of [-50 .. 50], in this
    order, whose error is the least of the positive errors; this error is
    at most the filler value. *)
Theorem select_lag_first_least_positive (static_L static_R : list Qc) :
  exists (l : Z) (m : Qc),
    select_lag (lag_errors static_L static_R) = Ok l
    /\ -50 <= l <= 50
    /\ lag_error static_L static_R l = m
    /\ (0 < m)%Qc /\ (m <= sentinel)%Qc
    /\ (forall l', -50 <= l' <= 50 ->
          (0 < lag_error static_L static_R l')%Qc ->
          (m <= lag_error static_L static_R l')%Qc)
    /\ (forall l', -50 <= l' < l ->
          lag_error static_L static_R l' <> m).
Proof.
  destruct (select_lag_spec static_L static_R)
    as (k & m & Hsel & Hk & Hm & Hpos & Hle & Hmin & Hfirst).
  exists (Z.of_nat k - 50), m. split; [done|]. split; [lia|]. done.
Qed.

Lemma selected_lag_short_or_first (static_L static_R : list Qc) (l : Z) :
  (length static_R <= 50)%nat ->
  select_lag (lag_errors static_L static_R) = Ok l ->
  l = -50 \/ Z.abs l < Z.of_nat (length static_R).
Proof.
  intros Hlen Hl.
  destruct (select_lag_spec static_L static_R)
    as (k & m & Hsel & Hk & Hm & Hpos & Hle & Hmin & Hfirst).
  rewrite Hl in Hsel. injection Hsel as ->.
  destruct (decide (Z.of_nat k - 50 = -50)) as [|Hne]; [by left|]. right.
  destruct (decide (Z.abs (Z.of_nat k - 50) < Z.of_nat (length static_R)))
    as [|Hge]; [done|]. exfalso.
  apply (Hfirst (-50)); [lia|].
  rewrite lag_error_whole_wrap by done. rewrite <- Hm.
  symmetry. apply lag_error_long_lag. lia.
Qed.

Lemma search_window fp (iL iR : list Qc) (s : search) :
  shift_search fp iL iR = Ok s ->
  (length (static_line_R s) <= 20)%nat
  /\ (lag_temp s = -50
      \/ Z.abs (lag_temp s) < Z.of_nat (length (static_line_R s))).
Proof.
  intros H. apply shift_search_Ok in H
    as (p & _ & _ & HL & HR & Herr & Hsel).
  assert (Hlen : (length (static_line_R s) <= 20)%nat).
  { rewrite HR. apply py_slice_window_length. }
  split; [done|]. rewrite Herr in Hsel.
  eapply selected_lag_short_or_first; [lia|exact Hsel].
Qed.

Lemma shift_match_magnitudes fp (L R : list Qc) (res_y v : Qc) :
  (0 <= res_y)%Qc ->
  shift_match fp L R res_y = Ok v ->
  exists k : Z,
    (1 <= k <= 19 \/ k = 50)
    /\ Qcabs v = (QcZ k * Q2Qc (1 # 5) * res_y)%Qc.
Proof.
  intros Hres H. apply shift_match_Ok in H as (iL & iR & s & _ & Hs & ->).
  pose proof (search_facts _ _ _ _ Hs) as (Hpos & Hrange & Hnz & Habs).
  apply search_window in Hs as [Hlen Hlag].
  exists (Z.abs (lag_temp s)). split; [lia|].
  rewrite dL_abs by done. rewrite (Qcabs_pos res_y) by done.
  by rewrite Habs.
Qed.

(** X4.  A measurement that succeeds on an image whose row spacing is not
    negative is, in absolute value, [k / 5 * res_y] for some [k] from 1
    to 19, or [10 * res_y]: the two static segments have at most 20
    samples, so every lag of 20 and more gets the filler error, and such a
    lag is selected only when no lag has a positive error below the
    filler, in which case it is the first one, -50. *)
Theorem measurement_is_short_or_filler fp (Medium : bool) mask
    (dcm : dcm_t) (v : Qc) :
  (0 <= (PixelSpacing dcm).2)%Qc ->
  get_slice_position fp Medium mask dcm = Ok v ->
  exists k : Z,
    (1 <= k <= 19 \/ k = 50)
    /\ Qcabs v = (QcZ k * Q2Qc (1 # 5) * (PixelSpacing dcm).2)%Qc.
Proof.
  intros Hres H. apply get_slice_position_Ok in H as (L & R & H).
  by eapply shift_match_magnitudes.
Qed.

Lemma measurement_is_short_or_filler_witness :
  (0 <= (PixelSpacing slice_11).2)%Qc
  /\ get_slice_position spec_find_n_highest_peaks false full_mask
       slice_11 = Ok (QcZ (-4))
  /\ exists k : Z,
      (1 <= k <= 19 \/ k = 50)
      /\ Qcabs (QcZ (-4))
         = (QcZ k * Q2Qc (1 # 5) * (PixelSpacing slice_11).2)%Qc.
Proof.
  assert (H : get_slice_position spec_find_n_highest_peaks false full_mask
                slice_11 = Ok (QcZ (-4))).
  { apply Ok_by_this. vm_compute. reflexivity. }
  split; [discriminate|]. split; [exact H|].
  apply (measurement_is_short_or_filler spec_find_n_highest_peaks false
           full_mask slice_11 (QcZ (-4))).
  - discriminate.
  - exact H.
Defined.

Lemma filler_lag_example :
  result_this
    (shift_match (fun _ _ _ => [15]) (np_array [0; 0; 0; 0; 0; 0])
       (np_array [0; 0; 0; 0; 0; 0]) (QcZ 1)) = Some (-10 # 1)%Q.
Proof. vm_compute. reflexivity. Qed.

(** ** The window around the peak *)

Lemma window_empty {A} (a : list A) (p : Z) :
  0 <= p < 10 -> (20 <= length a)%nat ->
  py_slice a (Some (p - 10)) (Some (p + 10)) = [].
Proof.
  intros Hp Hn. unfold py_slice.
  assert (H : (slice_hi (Z.of_nat (length a)) (Some (p + 10)%Z)
               - slice_lo (Z.of_nat (length a)) (Some (p - 10)%Z) = 0)%nat).
  { unfold slice_lo, slice_hi, slice_bound. simpl.
    destruct (p - 10 <? 0) eqn:E1; [|apply Z.ltb_ge in E1; lia].
    destruct (p + 10 <? 0) eqn:E2; [apply Z.ltb_lt in E2; lia|]. lia. }
  by rewrite H.
Qed.

Lemma window_length {A} (a : list A) (p : Z) :
  10 <= p < Z.of_nat (length a) ->
  length (py_slice a (Some (p - 10)) (Some (p + 10)))
  = Z.to_nat (Z.min 20 (Z.of_nat (length a) - p + 10)).
Proof.
  intros Hp. unfold py_slice. rewrite length_take, length_drop.
  unfold slice_lo, slice_hi, slice_bound. simpl.
  destruct (p - 10 <? 0) eqn:E1; [apply Z.ltb_lt in E1; lia|].
  destruct (p + 10 <? 0) eqn:E2; [apply Z.ltb_lt in E2; lia|]. lia.
Qed.

Lemma np_max_nonempty (l : list Qc) :
  l <> [] -> exists m, np_max l = Ok m.
Proof. destruct l as [|x t]; [done|]. simpl. eauto. Qed.

Lemma direction_nonempty (delta : list Qc) (peaks : Z * Z) :
  py_slice delta (Some peaks.1) (Some peaks.2) <> [] ->
  exists sgn, direction delta peaks = Ok sgn.
Proof.
  intros Hne. unfold direction.
  destruct (np_max_nonempty (Qcopp <$> py_slice delta (Some peaks.1)
                               (Some peaks.2))) as (a & ->).
  { intros H. apply fmap_nil_inv in H. done. }
  destruct (np_max_nonempty _ Hne) as (b & ->).
  cbn [mbind result_bind]. eauto.
Qed.

(** X5.  The region of interest is [delta[p - 10 : p + 10]] for the peak
    [p] of [abs(delta)], and a negative start counts from the end.  On
    two upsampled profiles of one length, at least 20 samples, with the
    peak at [p]: when [p] is less than 10 the region is empty and the
    search raises [ValueError] ([np.max] of an empty array); when [p] is
    10 or more the search succeeds, on two static segments of
    [min 20 (n - p + 10)] samples each. *)
Theorem shift_search_needs_margin fp (iL iR : list Qc) (p : Z) :
  length iL = length iR ->
  (20 <= length iL)%nat ->
  roi fp (zip_with Qcminus iL iR) = Ok (p - 10, p + 10) ->
  0 <= p < Z.of_nat (length iL) ->
  if p <? 10 then shift_search fp iL iR = Raise ValueError
  else exists s,
      shift_search fp iL iR = Ok s
      /\ static_line_L s = py_slice iL (Some (p - 10)) (Some (p + 10))
      /\ static_line_R s = py_slice iR (Some (p - 10)) (Some (p + 10))
      /\ length (static_line_L s)
         = Z.to_nat (Z.min 20 (Z.of_nat (length iL) - p + 10))
      /\ length (static_line_R s) = length (static_line_L s).
Proof.
  intros Hlen Hn Hroi Hp.
  assert (Hd : length (zip_with Qcminus iL iR) = length iL).
  { rewrite length_zip_with. lia. }
  unfold shift_search. rewrite Hroi. cbn [mbind result_bind fst snd].
  destruct (p <? 10) eqn:E.
  - apply Z.ltb_lt in E. unfold direction. cbn [fst snd].
    rewrite (window_empty (zip_with Qcminus iL iR)) by lia. done.
  - apply Z.ltb_ge in E.
    destruct (direction_nonempty (zip_with Qcminus iL iR) (p - 10, p + 10))
      as (sgn & ->).
    { cbn [fst snd]. intros H. apply (f_equal length) in H.
      rewrite window_length in H by lia. simpl in H. lia. }
    cbn [mbind result_bind].
    destruct (select_lag_spec (py_slice iL (Some (p - 10)) (Some (p + 10)))
                (py_slice iR (Some (p - 10)) (Some (p + 10))))
      as (k & m & -> & _).
    cbn [mbind result_bind]. eexists. split; [done|].
    cbn [static_line_L static_line_R]. split; [done|]. split; [done|].
    rewrite !window_length by lia. split; [done|]. by rewrite Hlen.
Qed.

Lemma shift_search_needs_margin_witness :
  length spike_at_3 = length flat_21
  /\ (20 <= length spike_at_3)%nat
  /\ roi spec_find_n_highest_peaks (zip_with Qcminus spike_at_3 flat_21)
     = Ok (3 - 10, 3 + 10)
  /\ 0 <= 3 < Z.of_nat (length spike_at_3)
  /\ shift_search spec_find_n_highest_peaks spike_at_3 flat_21
     = Raise ValueError.
Proof.
  split; [reflexivity|]. split; [vm_compute; lia|].
  split; [vm_compute; reflexivity|].
  split; [vm_compute; split; [discriminate|reflexivity]|].
  apply (shift_search_needs_margin spec_find_n_highest_peaks spike_at_3
           flat_21 3).
  - reflexivity.
  - vm_compute; lia.
  - vm_compute; reflexivity.
  - vm_compute; split; [discriminate|reflexivity].
Defined.

(** With the peak at sample 12 the same search succeeds; at sample 3 it
    raises. *)
Lemma shift_search_margin_examples :
  (lag_temp <$> shift_search spec_find_n_highest_peaks spike_at_12 flat_21)
  = Ok (-1)
  /\ (pos <$> shift_search spec_find_n_highest_peaks spike_at_12 flat_21)
     = Ok 1
  /\ shift_search spec_find_n_highest_peaks spike_at_3 flat_21
     = Raise ValueError.
Proof. repeat split; vm_compute; reflexivity. Qed.

(** ** The shifted line of the report *)

Lemma set_slice_nan_lookup (d : list (option Qc)) start stop (i : nat) :
  set_slice_nan d start stop !! i
  = (fun x => if bool_decide (slice_lo (Z.of_nat (length d)) start <= i
                              < slice_hi (Z.of_nat (length d)) stop)%nat
              then None else x) <$> d !! i.
Proof. unfold set_slice_nan. by rewrite list_lookup_imap. Qed.

Lemma set_slice_nan_length (d : list (option Qc)) start stop :
  length (set_slice_nan d start stop) = length d.
Proof. unfold set_slice_nan. by rewrite length_imap. Qed.

Lemma np_roll_length {A} (a : list A) (k : Z) :
  length (np_roll a k) = length a.
Proof.
  unfold np_roll. destruct a as [|x a]; [done|].
  rewrite length_app, length_drop, length_take. lia.
Qed.

Lemma rolled_and_masked (a : list Qc) (k : Z) start stop :
  (forall i : nat, (i < length a)%nat ->
     (slice_lo (Z.of_nat (length a)) start <= i
      < slice_hi (Z.of_nat (length a)) stop)%nat
     <-> ~ 0 <= Z.of_nat i + k < Z.of_nat (length a)) ->
  set_slice_nan (Some <$> np_roll a (- k)) start stop = displaced a k.
Proof.
  intros Hmask. apply list_eq. intros i. unfold displaced.
  rewrite set_slice_nan_lookup, !list_lookup_fmap, length_fmap,
    np_roll_length.
  destruct (decide (i < length a)%nat) as [Hi|Hi].
  - rewrite np_roll_lookup, lookup_seq_lt by done.
    assert (Hj : (Z.to_nat ((Z.of_nat i - - k) mod Z.of_nat (length a))
                  < length a)%nat).
    { pose proof (Z.mod_pos_bound (Z.of_nat i - - k)
                    (Z.of_nat (length a))). lia. }
    destruct (lookup_lt_is_Some_2 a _ Hj) as [v Hv]. rewrite Hv. simpl.
    f_equal. specialize (Hmask i Hi).
    case_bool_decide as H1; case_bool_decide as H2; try tauto.
    rewrite <- Hv. do 2 f_equal. rewrite Z.mod_small by lia. lia.
  - rewrite lookup_seq_ge by lia.
    rewrite (lookup_ge_None_2 (np_roll a (- k)))
      by (rewrite np_roll_length; lia).
    done.
Qed.

Lemma shift_line_displaced (interp_line_prof_R : list Qc) (sgn k : Z) :
  sgn = 1 \/ sgn = -1 ->
  shift_line interp_line_prof_R sgn (if sgn =? 1 then - k else k)
  = displaced interp_line_prof_R k.
Proof.
  intros Hsgn. unfold shift_line.
  set (n := length interp_line_prof_R).
  assert (Hroll : sgn * (if sgn =? 1 then - k else k) = - k)
    by (destruct Hsgn as [-> | ->]; simpl; lia).
  rewrite Hroll.
  assert (Hhead : forall j : Z, j = Z.abs k -> k <= 0 ->
    set_slice_nan (Some <$> np_roll interp_line_prof_R (- k))
      (Some 0) (Some j) = displaced interp_line_prof_R k).
  { intros j -> Hk. apply rolled_and_masked. intros i Hi.
    unfold slice_lo, slice_hi, slice_bound. simpl.
    destruct (Z.abs k <? 0) eqn:E; [apply Z.ltb_lt in E; lia|]. lia. }
  assert (Htail : 0 < k ->
    set_slice_nan (Some <$> np_roll interp_line_prof_R (- k))
      (Some (- k)) None = displaced interp_line_prof_R k).
  { intros Hk. apply rolled_and_masked. intros i Hi.
    unfold slice_lo, slice_hi, slice_bound. simpl.
    destruct (- k <? 0) eqn:E; [|apply Z.ltb_ge in E; lia]. lia. }
  destruct Hsgn as [-> | ->]; cbn [Z.eqb Pos.eqb andb];
    change (Z.abs 1) with 1; change (Z.abs (-1)) with 1.
  - rewrite !andb_false_r, andb_true_r.
    destruct (- k <? 0) eqn:E1.
    + apply Z.ltb_lt in E1. apply Htail. lia.
    + apply Z.ltb_ge in E1. apply Hhead; lia.
  - rewrite !andb_false_r, !andb_true_r.
    destruct (k <? 0) eqn:E1.
    + apply Z.ltb_lt in E1. apply Hhead; lia.
    + apply Z.ltb_ge in E1. destruct (0 <? k) eqn:E2.
      * apply Z.ltb_lt in E2. by apply Htail.
      * apply Z.ltb_ge in E2. apply Hhead; lia.
Qed.

(** X6.  The shifted line drawn in the report.  Whenever the search of the
    lag succeeds, [shift_line] is the upsampled right profile displaced by
    the selected lag, without wrap-around: its sample [i] is sample
    [i + lag] of the right profile, and [nan] where [i + lag] is not an
    index of the profile.  The four branches on the signs of [shift] and
    [pos] all mask exactly the samples that [np.roll] wrapped around, and
    the line does not depend on [pos]. *)
Theorem shift_line_is_displaced_profile fp (interp_line_prof_L
    interp_line_prof_R : list Qc) (s : search) :
  shift_search fp interp_line_prof_L interp_line_prof_R = Ok s ->
  shift_line interp_line_prof_R (pos s) (shift s)
  = displaced interp_line_prof_R (lag_temp s).
Proof.
  intros H. apply search_facts in H as (Hpos & _).
  unfold shift. by apply shift_line_displaced.
Qed.

Lemma shift_line_is_displaced_profile_witness :
  exists s,
    shift_search spec_find_n_highest_peaks spike_at_12 flat_21 = Ok s
    /\ shift_line flat_21 (pos s) (shift s) = displaced flat_21 (lag_temp s).
Proof.
  eexists. split; [vm_compute; reflexivity|].
  apply (shift_line_is_displaced_profile spec_find_n_highest_peaks
           spike_at_12 flat_21).
  vm_compute; reflexivity.
Defined.

(** ** The wedge centres between the two edges *)

Lemma round_half_even_nearest (q : Qc) (z : Z) :
  (inject_Z z - (1 # 2) < this q)%Q -> (this q < inject_Z z + (1 # 2))%Q ->
  round_half_even q = z.
Proof.
  intros Hlo Hhi. destruct (round_half_even_near q) as [H1 H2].
  assert (Ha : (inject_Z (round_half_even q) < inject_Z (z + 1))%Q).
  { rewrite inject_Z_plus. change (inject_Z 1) with 1%Q. lra. }
  assert (Hb : (inject_Z z < inject_Z (round_half_even q + 1))%Q).
  { rewrite inject_Z_plus. change (inject_Z 1) with 1%Q. lra. }
  rewrite <- Zlt_Qlt in Ha, Hb. lia.
Qed.

Lemma Qfloor_unique (q : Q) (z : Z) :
  (inject_Z z <= q)%Q -> (q < inject_Z z + 1)%Q -> Qfloor q = z.
Proof.
  intros Hlo Hhi. pose proof (Qfloor_le q) as H1.
  pose proof (Qlt_floor q) as H2. rewrite inject_Z_plus in H2.
  change (inject_Z 1) with 1%Q in H2.
  assert (Ha : (inject_Z (Qfloor q) < inject_Z (z + 1))%Q).
  { rewrite inject_Z_plus. change (inject_Z 1) with 1%Q. lra. }
  assert (Hb : (inject_Z z < inject_Z (Qfloor q + 1))%Q).
  { rewrite inject_Z_plus. change (inject_Z 1) with 1%Q. lra. }
  rewrite <- Zlt_Qlt in Ha, Hb. lia.
Qed.

Lemma round_half_even_tie (q : Qc) (z : Z) :
  (this q == inject_Z z + (1 # 2))%Q ->
  round_half_even q = if Z.even z then z else z + 1.
Proof.
  intros Hq.
  assert (Hf : Qfloor q = z) by (apply Qfloor_unique; lra).
  unfold round_half_even, Qc_floor. rewrite Hf.
  assert (E1 : Qcltb (q - QcZ z) half = false).
  { apply Qcltb_false. qc_to_q. lra. }
  assert (E2 : Qcltb half (q - QcZ z) = false).
  { apply Qcltb_false. qc_to_q. lra. }
  by rewrite E1, E2.
Qed.

Lemma wedge_centres_sum (x_locs : Z * Z) :
  (wedge_centres x_locs).1 + (wedge_centres x_locs).2
  = x_locs.1 + x_locs.2.
Proof.
  unfold wedge_centres. cbv zeta. cbn [fst snd].
  destruct (wedge_centres_Q x_locs) as [H1 H2]. cbv zeta in H1, H2.
  set (lo := Z.min x_locs.1 x_locs.2) in *.
  set (hi := Z.max x_locs.1 x_locs.2) in *.
  set (ql := (QcZ lo + quarter * QcZ (hi - lo))%Qc) in *.
  set (qr := (QcZ hi - quarter * QcZ (hi - lo))%Qc) in *.
  assert (Hsum : x_locs.1 + x_locs.2 = lo + hi) by (unfold lo, hi; lia).
  rewrite Hsum.
  set (t := (hi - lo) / 4). set (r := (hi - lo) mod 4).
  assert (Hw : hi - lo = 4 * t + r) by (apply Z.div_mod; lia).
  assert (Hr : 0 <= r < 4) by (apply Z.mod_pos_bound; lia).
  assert (HW : (inject_Z (hi - lo) == 4 * inject_Z t + inject_Z r)%Q).
  { rewrite Hw, inject_Z_plus, inject_Z_mult. reflexivity. }
  rewrite HW in H1, H2.
  assert (Hz1 : (inject_Z (lo + t) == inject_Z lo + inject_Z t)%Q)
    by (rewrite inject_Z_plus; reflexivity).
  assert (Hz2 : forall c, (inject_Z (lo + 3 * t + c)
                           == inject_Z lo + 3 * inject_Z t + inject_Z c)%Q).
  { intros c. rewrite !inject_Z_plus, inject_Z_mult. reflexivity. }
  assert (Hcase : r = 0 \/ r = 1 \/ r = 2 \/ r = 3) by lia.
  destruct Hcase as [Hr0|[Hr0|[Hr0|Hr0]]]; rewrite Hr0 in H1, H2.
  - rewrite (round_half_even_nearest ql (lo + t)),
      (round_half_even_nearest qr (lo + 3 * t + 0)); [lia|..];
      rewrite ?Hz1, ?Hz2, ?H1, ?H2;
      change (inject_Z 0) with 0%Q; lra.
  - rewrite (round_half_even_nearest ql (lo + t)),
      (round_half_even_nearest qr (lo + 3 * t + 1)); [lia|..];
      rewrite ?Hz1, ?Hz2, ?H1, ?H2;
      change (inject_Z 1) with 1%Q; lra.
  - rewrite (round_half_even_tie ql (lo + t)),
      (round_half_even_tie qr (lo + 3 * t + 1)).
    + rewrite !Z.even_add, Z.even_mul. simpl.
      destruct (Z.even lo), (Z.even t); simpl; lia.
    + rewrite Hz2, H2. change (inject_Z 1) with 1%Q.
      change (inject_Z 2) with 2%Q. lra.
    + rewrite Hz1, H1. change (inject_Z 2) with 2%Q. lra.
  - rewrite (round_half_even_nearest ql (lo + t + 1)),
      (round_half_even_nearest qr (lo + 3 * t + 2)); [lia|..];
      rewrite ?Hz2, ?H1, ?H2, ?inject_Z_plus;
      change (inject_Z 1) with 1%Q; change (inject_Z 2) with 2%Q;
      change (inject_Z 3) with 3%Q; lra.
Qed.

Lemma round_half_even_QcZ (z : Z) : round_half_even (QcZ z) = z.
Proof.
  apply round_half_even_nearest; rewrite this_QcZ; lra.
Qed.

Lemma wedge_centres_within (x_locs : Z * Z) :
  Z.min x_locs.1 x_locs.2 <= (wedge_centres x_locs).1
  /\ (wedge_centres x_locs).2 <= Z.max x_locs.1 x_locs.2.
Proof.
  unfold wedge_centres. cbv zeta. cbn [fst snd].
  destruct (wedge_centres_Q x_locs) as [H1 H2]. cbv zeta in H1, H2.
  assert (HW : (0 <= inject_Z (Z.max x_locs.1 x_locs.2
                               - Z.min x_locs.1 x_locs.2))%Q).
  { change 0%Q with (inject_Z 0). rewrite <- Zle_Qle. lia. }
  assert (Hhi : (inject_Z (Z.max x_locs.1 x_locs.2)
                 == inject_Z (Z.min x_locs.1 x_locs.2)
                    + inject_Z (Z.max x_locs.1 x_locs.2
                                - Z.min x_locs.1 x_locs.2))%Q).
  { rewrite <- inject_Z_plus. f_equiv. lia. }
  split.
  - pose proof (round_half_even_mono (QcZ (Z.min x_locs.1 x_locs.2))
                  (QcZ (Z.min x_locs.1 x_locs.2)
                   + quarter * QcZ (Z.max x_locs.1 x_locs.2
                                    - Z.min x_locs.1 x_locs.2))%Qc) as H.
    rewrite round_half_even_QcZ in H. apply H.
    rewrite H1, this_QcZ. lra.
  - pose proof (round_half_even_mono
                  (QcZ (Z.max x_locs.1 x_locs.2)
                   - quarter * QcZ (Z.max x_locs.1 x_locs.2
                                    - Z.min x_locs.1 x_locs.2))%Qc
                  (QcZ (Z.max x_locs.1 x_locs.2))) as H.
    rewrite round_half_even_QcZ in H. apply H.
    rewrite H2, this_QcZ. lra.
Qed.

(** X7.  Whenever [find_wedges] succeeds, the two wedge centres lie
    between the two detected edges and are placed symmetrically about
    their midpoint: [x_left + x_right = x_locs[0] + x_locs[1]], ties of
    [np.round] included (when the edges are [4 t + 2] columns apart, the
    two quarter points are both ties, and one is rounded down and the
    other up). *)
Theorem wedge_centres_symmetric fp (Medium : bool) img mask
    (res : Qc * Qc) (w : wedges) :
  find_wedges_full fp Medium img mask res = Ok w ->
  Z.min (x_locs w).1 (x_locs w).2 <= (x_pts w).1
  /\ (x_pts w).2 <= Z.max (x_locs w).1 (x_locs w).2
  /\ (x_pts w).1 + (x_pts w).2 = (x_locs w).1 + (x_locs w).2.
Proof.
  intros H. apply find_wedges_full_Ok in H as (wp & ep & _ & -> & _).
  destruct (wedge_centres_within (x_locs w)) as [Hlo Hhi].
  split; [done|]. split; [done|]. apply wedge_centres_sum.
Qed.

Lemma wedge_centres_symmetric_witness :
  find_wedges_full spec_find_n_highest_peaks false thin_img full_mask
    wedge_res = Ok thin_found
  /\ Z.min (x_locs thin_found).1 (x_locs thin_found).2
     <= (x_pts thin_found).1
  /\ (x_pts thin_found).2
     <= Z.max (x_locs thin_found).1 (x_locs thin_found).2
  /\ (x_pts thin_found).1 + (x_pts thin_found).2
     = (x_locs thin_found).1 + (x_locs thin_found).2.
Proof.
  split; [vm_compute; reflexivity|].
  apply (wedge_centres_symmetric spec_find_n_highest_peaks false thin_img
           full_mask wedge_res thin_found).
  vm_compute; reflexivity.
Defined.

(** ** The second y point *)





(** ** The rows and columns [find_wedges] reads *)

Lemma mapM_cons {A B} (f : A -> result B) (a : A) (l : list A) :
  mapM f (a :: l) = (y ← f a; k ← mapM f l; mret (y :: k)).
Proof. done. Qed.

Lemma mapM_Ok_Forall2 {A B} (f : A -> result B) (l : list A)
    (k : list B) :
  mapM f l = Ok k <-> Forall2 (fun x y => f x = Ok y) l k.
Proof.
  revert k. induction l as [|a l IH]; intros k.
  - split.
    + intros [= <-]. constructor.
    + intros H. by apply Forall2_nil_inv_l in H as ->.
  - rewrite mapM_cons. split.
    + intros H. apply bind_Ok in H as (y & Hy & H).
      apply bind_Ok in H as (k' & Hk & H). injection H as <-.
      constructor; [done|]. by apply IH.
    + intros H. apply Forall2_cons_inv_l in H as (y & k' & Hy & Hk & ->).
      rewrite Hy. apply IH in Hk. rewrite Hk. done.
Qed.

Lemma mapM_ext_in {A B} (f g : A -> result B) (l : list A) :
  (forall x, x ∈ l -> f x = g x) -> mapM f l = mapM g l.
Proof.
  induction l as [|a l IH]; intros H; [done|].
  rewrite !mapM_cons, (H a) by left.
  rewrite IH by (intros x Hx; apply H; by right). done.
Qed.

Lemma np_index_bound {A} (l : list A) (i : Z) (x : A) :
  np_index l i = Ok x ->
  - Z.of_nat (length l) <= i < Z.of_nat (length l).
Proof.
  unfold np_index. destruct (i <? 0) eqn:E;
    [apply Z.ltb_lt in E|apply Z.ltb_ge in E].
  - destruct (_ && _) eqn:Hb; [|discriminate].
    apply andb_true_iff in Hb as [H1%Z.leb_le H2%Z.ltb_lt]. intros _. lia.
  - destruct (_ && _) eqn:Hb; [|discriminate].
    apply andb_true_iff in Hb as [H1%Z.leb_le H2%Z.ltb_lt]. intros _. lia.
Qed.

Lemma argwhere_elem (b : list bool) (t : Z) :
  t ∈ argwhere b -> 0 <= t /\ b !! Z.to_nat t = Some true.
Proof.
  unfold argwhere. rewrite list_elem_of_omap.
  intros (o & Ho & Hid). simpl in Hid. subst o.
  apply list_elem_of_lookup in Ho as (i & Hi).
  rewrite list_lookup_imap in Hi.
  destruct (b !! i) as [[|]|] eqn:E; [|discriminate..]. simpl in Hi.
  injection Hi as <-. split; [lia|]. by rewrite Nat2Z.id.
Qed.

Lemma row_any_length (mask : mask_t) : length (row_any mask) = length mask.
Proof. unfold row_any. by rewrite length_fmap. Qed.

Lemma mean_profile_Ok (invest : list (list Qc)) (m : list Qc) :
  mean_profile invest = Ok m -> invest <> [].
Proof. by destruct invest. Qed.

Lemma x_search_Ok fp img mask res_x (w e n : Z) (xl : Z * Z) :
  x_search fp img mask res_x = Ok (w, e, n, xl) ->
  exists invest_x,
    res_x <> 0%Qc
    /\ np_index (argwhere (col_any mask)) 0 = Ok w
    /\ np_index (argwhere (col_any mask)) (-1) = Ok e
    /\ np_index (argwhere (row_any mask)) 0 = Ok n
    /\ mapM (fun k =>
         t ← mask_row mask (n + Z.of_nat k) (arange_incl w e);
         mask_mul t (profile_line img (n + Z.of_nat k, w)
                       (n + Z.of_nat k, e)))
         (seq 0 (Z.to_nat (force_odd (Qc_ceil (QcZ 35 / res_x)%Qc))))
       = Ok invest_x
    /\ invest_x <> [].
Proof.
  unfold x_search. intros H.
  apply bind_Ok in H as (q & Hq & H). apply div_res_Ok in Hq as [Hres ->].
  apply bind_Ok in H as (w' & Hw & H).
  apply bind_Ok in H as (e' & He & H).
  apply bind_Ok in H as (n' & Hn & H).
  apply bind_Ok in H as (invest_x & Hinv & H).
  apply bind_Ok in H as (mean_x & Hmean & H).
  apply bind_Ok in H as (x0 & _ & H).
  apply bind_Ok in H as (x1 & _ & H).
  injection H as <- <- <- _.
  exists invest_x. apply mean_profile_Ok in Hmean. done.
Qed.

Lemma y_search_rows fp Medium img mask res_y (n : Z) (x_pts : Z * Z)
    (e : Z) (yl : list Z) :
  y_search fp Medium img mask res_y n x_pts = Ok (e, yl) ->
  exists invest_y,
    mapM (fun m =>
      let x_loc := Z.of_nat m - force_odd (Qc_ceil (QcZ 20 / res_y)%Qc) / 2
                   + (x_pts.1 + x_pts.2) / 2 in
      c ← mask_col mask (arange_incl n e) x_loc;
      mask_mul c (profile_line img (n, x_loc) (e, x_loc)))
      (seq 0 (Z.to_nat (force_odd (Qc_ceil (QcZ 20 / res_y)%Qc))))
    = Ok invest_y
    /\ invest_y <> [].
Proof.
  unfold y_search. intros H.
  apply bind_Ok in H as (q & Hq & H). apply div_res_Ok in Hq as [Hres ->].
  apply bind_Ok in H as (e' & He & H).
  apply bind_Ok in H as (invest_y & Hinv & H).
  apply bind_Ok in H as (mean_y & Hmean & H).
  injection H as <- _.
  exists invest_y. apply mean_profile_Ok in Hmean. done.
Qed.

Lemma mapM_seq_nonempty {B} (f : nat -> result B) (n : nat)
    (k : list B) :
  mapM f (seq 0 n) = Ok k -> k <> [] ->
  (1 <= n)%nat /\ forall i, (i < n)%nat -> exists y, f i = Ok y.
Proof.
  intros H Hne. apply mapM_Ok_Forall2 in H. split.
  - destruct n; [|lia]. simpl in H. by apply Forall2_nil_inv_l in H.
  - intros i Hi.
    destruct (Forall2_lookup_l _ _ _ i i H) as (y & _ & Hy);
      [by apply lookup_seq_lt|]. eauto.
Qed.

Lemma arange_incl_last (a b : Z) : a <= b -> b ∈ arange_incl a b.
Proof.
  intros Hab. unfold arange_incl. apply list_elem_of_fmap.
  exists (Z.to_nat (b - a)). split; [lia|]. apply elem_of_seq. lia.
Qed.

Lemma find_wedges_rows fp Medium img mask (res : Qc * Qc) (w : wedges) :
  find_wedges_full fp Medium img mask res = Ok w ->
  1 <= force_odd (Qc_ceil (QcZ 35 / res.1)%Qc)
  /\ 1 <= force_odd (Qc_ceil (QcZ 20 / res.2)%Qc)
  /\ 0 <= n_point w
  /\ n_point w + force_odd (Qc_ceil (QcZ 35 / res.1)%Qc)
     <= Z.of_nat (length mask)
  /\ end_point w < Z.of_nat (length mask).
Proof.
  intros H. apply find_wedges_full_Ok in H
    as (wp & ep & Hx & _ & Hy & _).
  apply x_search_Ok in Hx as (invest_x & _ & _ & _ & Hn & Hinv & Hne).
  apply mapM_seq_nonempty in Hinv as [Hreg Hrows]; [|done].
  apply np_index_elem, argwhere_elem in Hn as [Hn0 Hn].
  apply lookup_lt_Some in Hn. rewrite row_any_length in Hn.
  apply y_search_rows in Hy as (invest_y & Hinvy & Hney).
  apply mapM_seq_nonempty in Hinvy as [Hregy Hcols]; [|done].
  split; [lia|]. split; [lia|]. split; [done|]. split.
  - destruct (Hrows (Z.to_nat (force_odd (Qc_ceil (QcZ 35 / res.1)%Qc))
                     - 1)%nat) as (y & Hy); [lia|].
    apply bind_Ok in Hy as (t & Ht & _). unfold mask_row in Ht.
    apply bind_Ok in Ht as (row & Hrow & _).
    apply np_index_bound in Hrow. lia.
  - destruct (decide (n_point w <= end_point w)) as [Hle|]; [|lia].
    destruct (Hcols 0%nat) as (y & Hy); [lia|].
    cbv zeta in Hy. apply bind_Ok in Hy as (c & Hc & _).
    unfold mask_col in Hc. apply mapM_Ok_Forall2 in Hc.
    apply arange_incl_last, list_elem_of_lookup in Hle as (i & Hi).
    destruct (Forall2_lookup_l _ _ _ i _ Hc Hi) as (b & _ & Hb).
    apply bind_Ok in Hb as (row & Hrow & _).
    apply np_index_bound in Hrow. lia.
Qed.

(** X9.  Whenever [find_wedges] succeeds, the mask holds every row the
    two searches index: the [x_investigate_region] rows from the northmost
    row [n_point] on, and the rows up to [end_point].  Both regions have
    at least one row or column.  On a mask with fewer rows indexing it
    raises [IndexError]: a phantom whose supposed end of the wedges,
    [n_point + round(50 / res_y)], lies below the last row is not
    measured. *)
Theorem find_wedges_stays_in_mask fp (Medium : bool) img mask
    (res : Qc * Qc) (w : wedges) :
  find_wedges_full fp Medium img mask res = Ok w ->
  1 <= force_odd (Qc_ceil (QcZ 35 / res.1)%Qc)
  /\ 1 <= force_odd (Qc_ceil (QcZ 20 / res.2)%Qc)
  /\ 0 <= n_point w
  /\ n_point w + force_odd (Qc_ceil (QcZ 35 / res.1)%Qc)
     <= Z.of_nat (length mask)
  /\ end_point w < Z.of_nat (length mask).
Proof. apply find_wedges_rows. Qed.

Lemma find_wedges_stays_in_mask_witness :
  find_wedges_full spec_find_n_highest_peaks false wedge_img full_mask
    wedge_res = Ok wedge_found
  /\ 1 <= force_odd (Qc_ceil (QcZ 35 / wedge_res.1)%Qc)
  /\ 1 <= force_odd (Qc_ceil (QcZ 20 / wedge_res.2)%Qc)
  /\ 0 <= n_point wedge_found
  /\ n_point wedge_found + force_odd (Qc_ceil (QcZ 35 / wedge_res.1)%Qc)
     <= Z.of_nat (length full_mask)
  /\ end_point wedge_found < Z.of_nat (length full_mask).
Proof.
  split; [vm_compute; reflexivity|].
  apply (find_wedges_stays_in_mask spec_find_n_highest_peaks false
           wedge_img full_mask wedge_res wedge_found).
  vm_compute; reflexivity.
Defined.

(** The same image under a mask of ten rows: the supposed end of the
    wedges is row 10, and indexing the mask raises. *)
Lemma find_wedges_short_mask_example :
  find_wedges spec_find_n_highest_peaks false wedge_img
    (replicate 10 (replicate 12 true)) wedge_res = Raise IndexError.
Proof. vm_compute. reflexivity. Qed.

(** ** The background of the mask *)

Lemma forallb_id_lookup (l : list bool) (i : nat) (b : bool) :
  forallb id l = true -> l !! i = Some b -> b = true.
Proof.
  revert i. induction l as [|x l IH]; intros i H Hi; [done|].
  simpl in H. apply andb_true_iff in H as [Hx Hl].
  destruct i as [|i]; simpl in Hi.
  - injection Hi as <-. done.
  - by eapply IH.
Qed.

Lemma agree_on_pixel (mask : mask_t) (img img' : image) (r c : nat)
    (row : list bool) :
  agree_on mask img img' = true ->
  mask !! r = Some row -> row !! c = Some true ->
  pixel img (Z.of_nat r) (Z.of_nat c) = pixel img' (Z.of_nat r) (Z.of_nat c).
Proof.
  unfold agree_on, mask_t. intros H Hr Hc.
  eapply (forallb_id_lookup _ r) in H;
    [|by rewrite list_lookup_imap, Hr].
  eapply (forallb_id_lookup _ c) in H;
    [|by rewrite list_lookup_imap, Hc].
  unfold Qceqb in H. by apply bool_decide_eq_true in H.
Qed.

Lemma profile_line_length (img : image) (src dst : Z * Z) :
  length (profile_line img src dst)
  = Z.to_nat (Z.max (Z.abs (dst.1 - src.1)) (Z.abs (dst.2 - src.2)) + 1).
Proof. unfold profile_line. by rewrite length_fmap, length_seq. Qed.

Lemma profile_line_lookup (img : image) (src dst : Z * Z) (i : nat)
    (v : Qc) :
  profile_line img src dst !! i = Some v ->
  v = pixel img (src.1 + Z.of_nat i * Z.sgn (dst.1 - src.1))
        (src.2 + Z.of_nat i * Z.sgn (dst.2 - src.2)).
Proof.
  unfold profile_line. rewrite list_lookup_fmap.
  destruct (seq _ _ !! i) as [j|] eqn:E; [|discriminate].
  apply lookup_seq in E as [-> _]. by intros [= <-].
Qed.

Lemma mask_mul_agree (t : list bool) (p p' : list Qc) :
  length p = length p' ->
  (forall j v v', t !! j = Some true -> p !! j = Some v ->
     p' !! j = Some v' -> v = v') ->
  mask_mul t p = mask_mul t p'.
Proof.
  intros Hlen H. unfold mask_mul. rewrite <- Hlen.
  case_bool_decide as Ht; [|done]. f_equal.
  apply list_eq. intros j. rewrite !lookup_zip_with.
  destruct (t !! j) as [b|] eqn:Eb; [|done]. simpl.
  destruct (p !! j) as [v|] eqn:Ev.
  - destruct (lookup_lt_is_Some_2 p' j) as [v' Ev'].
    { apply lookup_lt_Some in Ev. lia. }
    rewrite Ev'. simpl. destruct b; [|done]. f_equal. by eapply H.
  - rewrite (lookup_ge_None_2 p'); [done|].
    apply lookup_ge_None_1 in Ev. lia.
Qed.

Lemma arange_incl_lookup (a b : Z) (j : nat) (c : Z) :
  arange_incl a b !! j = Some c -> c = a + Z.of_nat j /\ c <= b.
Proof.
  unfold arange_incl. rewrite list_lookup_fmap.
  destruct (seq _ _ !! j) as [i|] eqn:E; [|discriminate].
  apply lookup_seq in E as [-> Hi]. intros [= <-]. lia.
Qed.

Lemma masked_row_agree (mask : mask_t) (img img' : image) (y_loc w e : Z) :
  agree_on mask img img' = true -> 0 <= y_loc -> 0 <= w ->
  (t ← mask_row mask y_loc (arange_incl w e);
   mask_mul t (profile_line img (y_loc, w) (y_loc, e)))
  = (t ← mask_row mask y_loc (arange_incl w e);
     mask_mul t (profile_line img' (y_loc, w) (y_loc, e))).
Proof.
  intros Hagree Hy Hw.
  destruct (mask_row mask y_loc (arange_incl w e)) as [t|] eqn:Ht; [|done].
  cbn [mbind result_bind]. unfold mask_row in Ht.
  apply bind_Ok in Ht as (row & Hrow & Ht). apply mapM_Ok_Forall2 in Ht.
  apply np_index_nonneg in Hrow; [|done].
  apply mask_mul_agree; [by rewrite !profile_line_length|].
  intros j v v' Hj Hv Hv'.
  destruct (Forall2_lookup_r _ _ _ j _ Ht Hj) as (c & Hc & Hb).
  apply arange_incl_lookup in Hc as [-> Hle].
  apply np_index_nonneg in Hb; [|lia].
  apply profile_line_lookup in Hv, Hv'. cbn [fst snd] in Hv, Hv'.
  rewrite Z.sub_diag in Hv, Hv'. simpl Z.sgn in Hv, Hv'.
  rewrite Z.mul_0_r, Z.add_0_r in Hv, Hv'.
  assert (Hcol : w + Z.of_nat j * Z.sgn (e - w) = w + Z.of_nat j).
  { destruct (decide (j = 0%nat)) as [->|]; [simpl; lia|].
    rewrite Z.sgn_pos by lia. lia. }
  rewrite Hcol in Hv, Hv'. subst v v'.
  rewrite <- (Z2Nat.id y_loc), <- (Z2Nat.id (w + Z.of_nat j)) by lia.
  by eapply agree_on_pixel.
Qed.

Lemma masked_col_agree (mask : mask_t) (img img' : image) (n e x_loc : Z) :
  agree_on mask img img' = true -> 0 <= n ->
  (c ← mask_col mask (arange_incl n e) x_loc;
   mask_mul c (profile_line img (n, x_loc) (e, x_loc)))
  = (c ← mask_col mask (arange_incl n e) x_loc;
     mask_mul c (profile_line img' (n, x_loc) (e, x_loc))).
Proof.
  intros Hagree Hn.
  destruct (mask_col mask (arange_incl n e) x_loc) as [c|] eqn:Hc; [|done].
  cbn [mbind result_bind]. unfold mask_col in Hc.
  apply mapM_Ok_Forall2 in Hc.
  apply mask_mul_agree; [by rewrite !profile_line_length|].
  intros j v v' Hj Hv Hv'.
  destruct (Forall2_lookup_r _ _ _ j _ Hc Hj) as (r & Hr & Hb).
  apply arange_incl_lookup in Hr as [-> Hle].
  apply bind_Ok in Hb as (row & Hrow & Hb).
  apply np_index_nonneg in Hrow; [|lia].
  apply profile_line_lookup in Hv, Hv'. cbn [fst snd] in Hv, Hv'.
  rewrite Z.sub_diag in Hv, Hv'. simpl Z.sgn in Hv, Hv'.
  rewrite Z.mul_0_r, Z.add_0_r in Hv, Hv'.
  assert (Hcol : n + Z.of_nat j * Z.sgn (e - n) = n + Z.of_nat j).
  { destruct (decide (j = 0%nat)) as [->|]; [simpl; lia|].
    rewrite Z.sgn_pos by lia. lia. }
  rewrite Hcol in Hv, Hv'. subst v v'.
  destruct (decide (x_loc < 0)) as [Hneg|Hpos].
  - unfold pixel. destruct (0 <=? x_loc) eqn:E;
      [apply Z.leb_le in E; lia|]. by rewrite !andb_false_r.
  - apply np_index_nonneg in Hb; [|lia].
    rewrite <- (Z2Nat.id (n + Z.of_nat j)), <- (Z2Nat.id x_loc) by lia.
    by eapply agree_on_pixel.
Qed.

Lemma x_search_agree fp (mask : mask_t) (img img' : image) (res_x : Qc) :
  agree_on mask img img' = true ->
  x_search fp img mask res_x = x_search fp img' mask res_x.
Proof.
  intros Hagree. unfold x_search.
  destruct (div_res 35 res_x) as [q|]; [|done]. cbn [mbind result_bind].
  destruct (np_index (argwhere (col_any mask)) 0) as [w|] eqn:Hw; [|done].
  cbn [mbind result_bind].
  destruct (np_index (argwhere (col_any mask)) (-1)) as [e|]; [|done].
  cbn [mbind result_bind].
  destruct (np_index (argwhere (row_any mask)) 0) as [n|] eqn:Hn; [|done].
  cbn [mbind result_bind].
  apply np_index_elem, argwhere_elem in Hw as [Hw _].
  apply np_index_elem, argwhere_elem in Hn as [Hn _].
  f_equal. apply mapM_ext_in. intros k _. cbv zeta.
  apply masked_row_agree; [done|lia|done].
Qed.

Lemma y_search_agree fp Medium (mask : mask_t) (img img' : image)
    (res_y : Qc) (n : Z) (x_pts : Z * Z) :
  agree_on mask img img' = true -> 0 <= n ->
  y_search fp Medium img mask res_y n x_pts
  = y_search fp Medium img' mask res_y n x_pts.
Proof.
  intros Hagree Hn. unfold y_search.
  destruct (div_res 20 res_y) as [q|]; [|done]. cbn [mbind result_bind].
  destruct (expected_end Medium n res_y) as [e|]; [|done].
  cbn [mbind result_bind].
  f_equal. apply mapM_ext_in. intros m _. cbv zeta.
  by apply masked_col_agree.
Qed.

Lemma find_wedges_full_agree fp Medium (mask : mask_t) (img img' : image)
    (res : Qc * Qc) :
  agree_on mask img img' = true ->
  find_wedges_full fp Medium img mask res
  = find_wedges_full fp Medium img' mask res.
Proof.
  intros Hagree. unfold find_wedges_full.
  rewrite (x_search_agree fp mask img img') by done.
  destruct (x_search fp img' mask res.1) as [[[[w e] n] xl]|] eqn:Hx;
    [|done].
  cbn [mbind result_bind].
  apply x_search_Ok in Hx as (_ & _ & _ & _ & Hn & _).
  apply np_index_elem, argwhere_elem in Hn as [Hn _].
  by rewrite (y_search_agree fp Medium mask img img').
Qed.

(** X10.  [find_wedges] reads the image through the mask only: on two
    images that hold the same values on the foreground of the mask it
    returns the same [x_pts, y_pts], or raises the same exception.  (The
    two profiles [get_slice_position] then draws are read off the image
    itself, unmasked.) *)
Theorem find_wedges_ignores_background fp (Medium : bool)
    (mask : mask_t) (img img' : image) (res : Qc * Qc) :
  agree_on mask img img' = true ->
  find_wedges fp Medium img mask res = find_wedges fp Medium img' mask res.
Proof.
  intros Hagree. unfold find_wedges.
  by rewrite (find_wedges_full_agree fp Medium mask img img').
Qed.

Lemma find_wedges_ignores_background_witness :
  agree_on left_mask wedge_img wedge_img_noisy = true
  /\ find_wedges spec_find_n_highest_peaks false wedge_img left_mask
       wedge_res
     = find_wedges spec_find_n_highest_peaks false wedge_img_noisy
         left_mask wedge_res.
Proof.
  split; [vm_compute; reflexivity|].
  apply (find_wedges_ignores_background spec_find_n_highest_peaks false
           left_mask wedge_img wedge_img_noisy wedge_res).
  vm_compute; reflexivity.
Defined.

(** The two images differ, and the wedges found in the second are those
    found in [wedge_img]. *)
Lemma find_wedges_background_example :
  wedge_img <> wedge_img_noisy
  /\ find_wedges spec_find_n_highest_peaks false wedge_img_noisy left_mask
       wedge_res = Ok ((3, 6), [1; 9]).
Proof.
  split.
  - intros H. apply (f_equal (fun i => this (pixel i 0 11))) in H.
    vm_compute in H. discriminate.
  - vm_compute. reflexivity.
Qed.

(** ** The loop of [run] and the images it measures *)



Lemma lookup_last_cons {A} (a : A) (l : list A) :
  (a :: l) !! length l = Some (default a (last l)).
Proof.
  destruct l as [|b l]; [done|].
  rewrite last_lookup. cbn [length Nat.pred lookup list_lookup].
  destruct (lookup_lt_is_Some_2 (b :: l) (length l)) as [x Hx];
    [simpl; lia|].
  by rewrite Hx.
Qed.

Lemma np_index_first_last {A} (a : A) (l : list A) :
  np_index (a :: l) 0 = Ok a
  /\ np_index (a :: l) (-1) = Ok (default a (last l)).
Proof.
  split; [apply np_index_cons_0|]. unfold np_index.
  change (-1 <? 0) with true. cbv iota.
  assert (Hb : (0 <=? -1 + Z.of_nat (length (a :: l)))
               && (-1 + Z.of_nat (length (a :: l))
                   <? Z.of_nat (length (a :: l))) = true).
  { apply andb_true_iff. split; [apply Z.leb_le|apply Z.ltb_lt];
      simpl; lia. }
  rewrite Hb.
  replace (Z.to_nat (-1 + Z.of_nat (length (a :: l)))) with (length l)
    by (simpl; lia).
  by rewrite lookup_last_cons.
Qed.

(** X12.  [run] looks at the first and at the last image of the series
    only: on a series that is not empty it does what it does on the
    series of these two images (so the images in between are not
    measured, and a series of one image has this image measured twice);
    on an empty series [self.ACR_obj.dcms[0]] raises [IndexError], before
    anything is printed. *)
Theorem run_first_and_last fp (Medium : bool) (mask : mask_t)
    (dcms : list dcm_t) (img_desc : dcm_t -> string) (report : bool)
    (img_path : string -> string) :
  match dcms with
  | [] =>
    run fp Medium mask dcms img_desc report img_path
    = ([], Raise IndexError)
  | first :: others =>
    run fp Medium mask dcms img_desc report img_path
    = run fp Medium mask [first; default first (last others)] img_desc
        report img_path
  end.
Proof.
  destruct dcms as [|first others]; [done|].
  unfold run.
  destruct (np_index_first_last first others) as [-> ->].
  destruct (np_index_first_last first [default first (last others)])
    as [-> ->].
  done.
Qed.

(** ** Swapping the two static segments *)














(** ** A mask without foreground *)

Lemma argwhere_all_false (b : list bool) :
  (forall x, x ∈ b -> x = false) -> argwhere b = [].
Proof.
  intros H. destruct (argwhere b) as [|t l] eqn:E; [done|]. exfalso.
  assert (Ht : t ∈ argwhere b) by (rewrite E; left).
  apply argwhere_elem in Ht as [_ Ht].
  apply list_elem_of_lookup_2, H in Ht. done.
Qed.

Lemma col_any_no_foreground (mask : mask_t) :
  no_foreground mask = true -> argwhere (col_any mask) = [].
Proof.
  intros Hno. apply argwhere_all_false. intros x Hx.
  unfold col_any in Hx. apply list_elem_of_fmap in Hx as (j & -> & _).
  apply not_true_is_false. intros Hex.
  apply existsb_exists in Hex as (row & Hrow & Hj).
  unfold no_foreground in Hno. rewrite forallb_forall in Hno.
  specialize (Hno row Hrow). rewrite forallb_forall in Hno.
  destruct (row !! j) as [b|] eqn:E; [|done]. simpl in Hj. subst b.
  apply list_elem_of_lookup_2, list_elem_of_In, Hno in E. done.
Qed.

(** X14.  On a mask without any foreground pixel, and for a column
    spacing that is not zero, [find_wedges] raises [IndexError] (the
    westmost point is entry 0 of an empty array), whatever the image and
    the peak finder are, and so does [get_slice_position]. *)
Theorem empty_mask_raises fp (Medium : bool) (mask : mask_t) (dcm : dcm_t) :
  no_foreground mask = true ->
  (PixelSpacing dcm).1 <> 0%Qc ->
  find_wedges fp Medium (pixel_array dcm) mask (PixelSpacing dcm)
  = Raise IndexError
  /\ get_slice_position fp Medium mask dcm = Raise IndexError.
Proof.
  intros Hno Hres.
  assert (Hx : x_search fp (pixel_array dcm) mask (PixelSpacing dcm).1
               = Raise IndexError).
  { unfold x_search. rewrite div_res_nonzero by done.
    cbn [mbind result_bind]. by rewrite col_any_no_foreground. }
  assert (Hf : find_wedges fp Medium (pixel_array dcm) mask (PixelSpacing dcm)
               = Raise IndexError).
  { unfold find_wedges, find_wedges_full. by rewrite Hx. }
  split; [done|]. unfold get_slice_position. by rewrite Hf.
Qed.

Lemma empty_mask_raises_witness :
  no_foreground (replicate 12 (replicate 12 false)) = true
  /\ (PixelSpacing slice_1).1 <> 0%Qc
  /\ find_wedges spec_find_n_highest_peaks false (pixel_array slice_1)
       (replicate 12 (replicate 12 false)) (PixelSpacing slice_1)
     = Raise IndexError
  /\ get_slice_position spec_find_n_highest_peaks false
       (replicate 12 (replicate 12 false)) slice_1 = Raise IndexError.
Proof.
  split; [reflexivity|]. split; [discriminate|].
  apply (empty_mask_raises spec_find_n_highest_peaks false
           (replicate 12 (replicate 12 false)) slice_1);
    [reflexivity|discriminate].
Defined.

(** ** From the wedges to the measurement *)






Lemma mapM_length {A B} (f : A -> result B) (l : list A) (k : list B) :
  mapM f l = Ok k -> length k = length l.
Proof.
  intros H. apply mapM_Ok_Forall2 in H. symmetry.
  by eapply Forall2_length.
Qed.

Lemma interp_line_prof_length (n : nat) (profile iP : list Qc) :
  interp_line_prof n profile = Ok iP ->
  length iP = length (arange_new_x n).
Proof.
  unfold interp_line_prof, interp1d. case_bool_decide; [|discriminate].
  apply mapM_length.
Qed.

Lemma py_slice_length {A B} (a : list A) (b : list B) start stop :
  length a = length b ->
  length (py_slice a start stop) = length (py_slice b start stop).
Proof.
  intros H. unfold py_slice. by rewrite !length_take, !length_drop, H.
Qed.

(** X16.  The arrays the search subtracts have one length.  Whatever the
    two profiles are, their upsamplings have the same number of samples
    (both are evaluated at the same [new_x]), and so have the two static
    segments cut from them, at most 20 samples each; the array [err] has
    101 entries, one per lag. *)
Theorem static_segments_same_length fp (line_prof_L line_prof_R : list Qc)
    (interp_line_prof_L interp_line_prof_R : list Qc) (s : search) :
  upsample line_prof_L line_prof_R
  = Ok (interp_line_prof_L, interp_line_prof_R) ->
  shift_search fp interp_line_prof_L interp_line_prof_R = Ok s ->
  length interp_line_prof_L = length interp_line_prof_R
  /\ length (static_line_L s) = length (static_line_R s)
  /\ (length (static_line_R s) <= 20)%nat
  /\ length (err s) = 101%nat.
Proof.
  intros Hup Hs. apply upsample_Ok in Hup as [HL HR].
  apply interp_line_prof_length in HL, HR.
  assert (Hlen : length interp_line_prof_L = length interp_line_prof_R)
    by congruence.
  split; [done|].
  apply shift_search_Ok in Hs as (p & _ & _ & -> & -> & -> & _).
  split; [by apply py_slice_length|].
  split; [apply py_slice_window_length|apply lag_errors_length].
Qed.

Lemma static_segments_same_length_witness :
  exists s,
    upsample left_profile right_profile
    = Ok (linear_upsample left_profile, linear_upsample right_profile)
    /\ shift_search spec_find_n_highest_peaks
         (linear_upsample left_profile) (linear_upsample right_profile)
       = Ok s
    /\ length (linear_upsample left_profile)
       = length (linear_upsample right_profile)
    /\ length (static_line_L s) = length (static_line_R s)
    /\ (length (static_line_R s) <= 20)%nat
    /\ length (err s) = 101%nat.
Proof.
  assert (Hup : upsample left_profile right_profile
                = Ok (linear_upsample left_profile,
                      linear_upsample right_profile)).
  { apply upsample_linear; [reflexivity|vm_compute; split; discriminate]. }
  eexists. split; [exact Hup|]. split; [vm_compute; reflexivity|].
  apply (static_segments_same_length spec_find_n_highest_peaks
           left_profile right_profile (linear_upsample left_profile)
           (linear_upsample right_profile)).
  - exact Hup.
  - vm_compute; reflexivity.
Defined.
